(** * post.ipynb: monthly literature counts with an on-disk cache

    A shallow embedding of the code cells of [src/post.ipynb] that carry
    logic: the grid of (year, month) periods [dates], the caching fetch
    loop [get_df] and the four cells that call it.  The plotting cells only
    consume the returned tables and are not modelled.

    The notebook talks to three outside parties: the file system (pandas
    [to_csv]/[read_csv] and [os.path.exists]), the ADS search service
    ([ads.SearchQuery]) and the clock ([time.sleep]).  They are modelled by
    an explicit state: a finite map from file names to CSV contents, an
    abstract service state threaded through every query, and a trace of
    the observable events in the order the code performs them. *)

From Stdlib Require Import ZArith String Ascii DecimalString List Sorted.
From stdpp Require Import gmap strings list.

Open Scope Z_scope.

(** ** Text formatting (Python [str.format]) *)

Module Fmt.

(** The double quote character, code point 34. *)
Definition dq : string := String "034"%char EmptyString.

(** [{z:d}]: decimal digits, a leading minus sign for negatives. *)
Definition fmt_d (z : Z) : string := NilZero.string_of_int (Z.to_int z).

(** [s.zfill(w)] for a string of digits. *)
Definition zfill (w : nat) (s : string) : string :=
  String.concat "" (replicate (w - String.length s)%nat "0"%string) +:+ s.

(** [{z:0wd}]: sign-aware zero padding to a minimum width of [w]. *)
Definition fmt_0d (w : nat) (z : Z) : string :=
  if z <? 0 then "-" +:+ zfill (w - 1) (fmt_d (Z.abs z))
  else zfill w (fmt_d z).

(** One decimal digit as a character. *)
Definition digit (z : Z) : ascii := ascii_of_nat (48 + Z.to_nat z).

(** The two decimal digits of a number below one hundred. *)
Definition two_digits (z : Z) : string :=
  String (digit (z / 10)) (String (digit (z mod 10)) EmptyString).

(** The four decimal digits of a number below ten thousand. *)
Definition four_digits (z : Z) : string :=
  two_digits (z / 100) +:+ two_digits (z mod 100).

End Fmt.

(** ** The period grid (second code cell) *)

(** A period is a Python tuple [(y, m)] of two integers. *)
Definition period : Type := Z * Z.

(** [range(lo, hi, 1)]. *)
Definition range (lo hi : Z) : list Z := seqZ lo (hi - lo).

(** [itertools.product(xs, ys)]: the rightmost factor varies fastest. *)
Definition product {A B : Type} (xs : list A) (ys : list B) : list (A * B) :=
  flat_map (fun x => map (pair x) ys) xs.

Definition years : list Z := range 1991 (2018 + 1).
Definition months : list Z := range 1 (12 + 1).

(** The condition of the comprehension: [y < 2018 or (y == 2018 and m < 3)]. *)
Definition in_window (p : period) : bool :=
  let '(y, m) := p in (y <? 2018) || ((y =? 2018) && (m <? 3)).

(** [dates = [ ... ][1:]]. *)
Definition dates : list period :=
  drop 1 (List.filter in_window (product years months)).

Definition ndates : nat := length dates.

(** Chronological order on periods. *)
Definition chron_lt (p q : period) : Prop :=
  p.1 < q.1 \/ (p.1 = q.1 /\ p.2 < q.2).

Definition chron_ltb (p q : period) : bool :=
  (p.1 <? q.1) || ((p.1 =? q.1) && (p.2 <? q.2)).

(** The months of the analysis window: after January 1991, before March
    2018. *)
Definition in_grid (p : period) : bool :=
  (1 <=? p.2) && (p.2 <=? 12) && chron_ltb (1991, 1) p && chron_ltb p (2018, 3).

(** Every element is chronologically before its successor. *)
Fixpoint ascending (l : list period) : bool :=
  match l with
  | p :: (q :: _) as tl => chron_ltb p q && ascending tl
  | _ => true
  end.

(** ** Calendar dates ([datetime.date]) and pandas timestamps *)

Record date : Type := Date { year : Z; month : Z; day : Z }.

Definition is_leap (y : Z) : bool :=
  ((y mod 4 =? 0) && negb (y mod 100 =? 0)) || (y mod 400 =? 0).

Definition days_in_month (y m : Z) : Z :=
  if m =? 2 then (if is_leap y then 29 else 28)
  else if (m =? 4) || (m =? 6) || (m =? 9) || (m =? 11) then 30
  else 31.

(** The domain of the [datetime.date] constructor: MINYEAR = 1, MAXYEAR = 9999. *)
Definition valid_date (y m d : Z) : bool :=
  (1 <=? y) && (y <=? 9999) && (1 <=? m) && (m <=? 12) &&
  (1 <=? d) && (d <=? days_in_month y m).

(** [datetime.date(y, m, d)]; [None] stands for the ValueError. *)
Definition datetime_date (y m d : Z) : option date :=
  if valid_date y m d then Some (Date y m d) else None.

(** [str(d)], that is [d.isoformat()]: "%04d-%02d-%02d". *)
Definition isoformat (dt : date) : string :=
  Fmt.fmt_0d 4 (year dt) +:+ "-" +:+ Fmt.fmt_0d 2 (month dt) +:+ "-" +:+
  Fmt.fmt_0d 2 (day dt).

(** The placeholder [datetime.date(1984, 1, 1)] of a pending record. *)
Definition placeholder : date := Date 1984 1 1.

Definition digit_val (c : ascii) : option Z :=
  let n := nat_of_ascii c in
  if ((48 <=? n) && (n <=? 57))%nat then Some (Z.of_nat n - 48) else None.

(** Reading back a date written as YYYY-MM-DD.  pandas accepts more
    spellings than this one; the cache files [get_df] writes hold no other. *)
Definition parse_iso (s : string) : option date :=
  match list_ascii_of_string s with
  | [y3; y2; y1; y0; h1; m1; m0; h2; d1; d0] =>
      if (Ascii.eqb h1 "-" && Ascii.eqb h2 "-")%bool then
        a ← digit_val y3; b ← digit_val y2; c ← digit_val y1; e ← digit_val y0;
        f ← digit_val m1; g ← digit_val m0;
        h ← digit_val d1; k ← digit_val d0;
        datetime_date (1000 * a + 100 * b + 10 * c + e) (10 * f + g) (10 * h + k)
      else None
  | _ => None
  end.

Definition date_leb (a b : date) : bool :=
  (year a <? year b) ||
  ((year a =? year b) &&
   ((month a <? month b) || ((month a =? month b) && (day a <=? day b)))).

(** The days a nanosecond-resolution [pandas.Timestamp] can hold at midnight:
    Timestamp.min is 1677-09-21 00:12:43, Timestamp.max 2262-04-11 23:47:16. *)
Definition Timestamp_min : date := Date 1677 9 22.
Definition Timestamp_max : date := Date 2262 4 11.

Definition in_bounds (dt : date) : bool :=
  date_leb Timestamp_min dt && date_leb dt Timestamp_max.

(** A value of the object-typed "date" column: a string as [read_csv]
    delivers it, or a [datetime.date] stored by the loop. *)
Inductive cell : Type :=
| CStr (s : string)
| CDate (dt : date).

Definition str_cell (c : cell) : string :=
  match c with CStr s => s | CDate dt => isoformat dt end.

(** [pd.to_datetime] on one value; [None] stands for the parser or
    out-of-bounds error. *)
Definition to_datetime1 (c : cell) : option date :=
  dt ← match c with CStr s => parse_iso s | CDate dt => Some dt end;
  if in_bounds dt then Some dt else None.

(** ** Tables *)

(** The rows of a cache file below its header line [date,count]. *)
Definition csv : Type := list (string * Z).

(** A two-column DataFrame before the date column is converted; the dict of
    columns [df.to_dict()] has the same shape, each inner dict having the
    keys 0 .. n-1, so a column is a list and a key is a position. *)
Record DataFrame : Type := Frame { col_date : list cell; col_count : list Z }.

(** The returned table, its date column converted to a genuine date type. *)
Record table : Type := Table { t_date : list date; t_count : list Z }.

Definition rows (t : table) : list (date * Z) := zip (t_date t) (t_count t).

(** What [df.to_csv(cache_file, index=False)] writes. *)
Definition csv_of (df : DataFrame) : csv :=
  zip (str_cell <$> col_date df) (col_count df).

(** What [pd.read_csv] makes of a file. *)
Definition frame_of (c : csv) : DataFrame :=
  Frame (CStr <$> c.*1) (c.*2).

(** [np.all(df["count"] >= 0)]. *)
Definition np_all_nonneg (counts : list Z) : bool :=
  forallb (fun c => 0 <=? c) counts.

(** The all-pending frame built when the cache is created. *)
Definition fresh_frame (n : nat) : DataFrame :=
  Frame (replicate n (CDate placeholder)) (replicate n (-1)).

(** ** The query string (line [q = ...] of [get_df]) *)

Definition q_format (term : string) (y m : Z) (db : string) : string :=
  "full:" +:+ Fmt.dq +:+ term +:+ Fmt.dq +:+ "  pubdate:" +:+ Fmt.fmt_d y +:+
  "-" +:+ Fmt.fmt_0d 2 m +:+ " database:" +:+ Fmt.dq +:+ db +:+ Fmt.dq.

(** The shape the specification documents for the query string, word for
    word: a single blank before [pubdate:] and a two-digit month. *)
Definition spec_query_shape (term : string) (y m : Z) (db : string) : string :=
  "full:" +:+ Fmt.dq +:+ term +:+ Fmt.dq +:+ " pubdate:" +:+ Fmt.fmt_d y +:+
  "-" +:+ Fmt.two_digits m +:+ " database:" +:+ Fmt.dq +:+ db +:+ Fmt.dq.

(** ["{0}_{1}.csv".format(term, db)]. *)
Definition cache_file_name (term db : string) : string :=
  term +:+ "_" +:+ db +:+ ".csv".

(** ** Effects: files, the search service, the clock *)

(** What one executed search gives back: the number of articles the
    iteration yields, and the remaining request budget of the response. *)
Record response : Type := Response { nresults : nat; remaining : string }.

(** Python exceptions that can leave [get_df]. *)
Inductive exn : Type :=
| KeyError (i : nat)      (* d["count"][i] with no key i *)
| ValueError              (* datetime.date outside the calendar *)
| ServiceError            (* the query to the search service failed *)
| FileNotFoundError       (* read_csv on a missing file *)
| DatetimeError.          (* pd.to_datetime cannot convert a value *)

Section Effects.

(** The state of the search service (its index, the request budget ...)
    and the unit in which [time.sleep] takes its argument. *)
Context {world delay : Type}.

(** Observable events, in program order; a query is recorded with what
    the service gave back, [None] for a failed call. *)
Inductive event : Type :=
| Ev_to_csv (file : string) (content : csv)
| Ev_query (q : string) (answer : option response)
| Ev_sleep (s : delay)
| Ev_print (line : string).

Record state : Type := State { files : gmap string csv; ads : world }.

(** The outcome of running a computation: a value or the exception that
    ended it, the state it leaves, and the events it caused. *)
Record run (A : Type) : Type :=
  Run { result : exn + A; final : state; events : list event }.
Global Arguments Run {A} _ _ _.
Global Arguments result {A} _.
Global Arguments final {A} _.
Global Arguments events {A} _.

Definition M (A : Type) : Type := state -> run A.

Definition ret {A} (a : A) : M A := fun s => Run (inr a) s [].

Definition raise {A} (e : exn) : M A := fun s => Run (inl e) s [].

Definition bind {A B} (m : M A) (k : A -> M B) : M B := fun s =>
  let r := m s in
  match result r with
  | inl e => Run (inl e) (final r) (events r)
  | inr a =>
      let r' := k a (final r) in
      Run (result r') (final r') (events r ++ events r')
  end.

Global Instance M_ret : MRet M := @ret.
Global Instance M_bind : MBind M := fun A B k m => bind m k.

(** [os.path.exists]. *)
Definition path_exists (f : string) : M bool := fun s =>
  Run (inr (bool_decide (is_Some (files s !! f)))) s [].

(** [df.to_csv(f, index=False)]: creates or replaces the file. *)
Definition to_csv (f : string) (df : DataFrame) : M unit := fun s =>
  Run (inr tt) (State (<[f := csv_of df]> (files s)) (ads s))
      [Ev_to_csv f (csv_of df)].

(** [pd.read_csv(f)]. *)
Definition read_csv (f : string) : M DataFrame := fun s =>
  match files s !! f with
  | Some c => ret (frame_of c) s
  | None => raise FileNotFoundError s
  end.

(** [time.sleep(d)]. *)
Definition time_sleep (d : delay) : M unit := fun s =>
  Run (inr tt) s [Ev_sleep d].

(** [print(line)]. *)
Definition print (line : string) : M unit := fun s =>
  Run (inr tt) s [Ev_print line].

(** [d["count"][i]] as an expression. *)
Definition getitem_count (d : DataFrame) (i : nat) : M Z :=
  match col_count d !! i with
  | Some c => ret c
  | None => raise (KeyError i)
  end.

(** [datetime.date(y, m, 1)] inside the loop. *)
Definition new_date (y m : Z) : M date :=
  match datetime_date y m 1 with
  | Some dt => ret dt
  | None => raise ValueError
  end.

(** [df["date"] = pd.to_datetime(df["date"])]. *)
Definition to_datetime (df : DataFrame) : M table :=
  match mapM to_datetime1 (col_date df) with
  | Some ds => ret (Table ds (col_count df))
  | None => raise DatetimeError
  end.

(** The search service: one executed query answers or fails, and moves
    the service to its next state either way. *)
Variable SearchQuery : world -> string -> option response * world.

(** [len(list(ads.SearchQuery(q=q, rows=1000)))]: the one network call. *)
Definition run_query (q : string) : M response := fun s =>
  let '(a, w) := SearchQuery (ads s) q in
  match a with
  | Some r => Run (inr r) (State (files s) w) [Ev_query q a]
  | None => Run (inl ServiceError) (State (files s) w) [Ev_query q a]
  end.

(** ** [get_df] *)

(** The body of [for i, (y, m) in enumerate(dates)], from index [i] on.
    [search] is the variable of that name: the last executed query. *)
Fixpoint loop (term db : string) (sleep : delay) (i : nat)
    (dates : list period) (d : DataFrame) (search : option response)
    : M (DataFrame * option response) :=
  match dates with
  | [] => mret (d, search)
  | (y, m) :: rest =>
      c ← getitem_count d i;
      if 0 <=? c then loop term db sleep (S i) rest d search
      else
        r ← run_query (q_format term y m db);
        let d1 := Frame (col_date d) (<[i := Z.of_nat (nresults r)]> (col_count d)) in
        dt ← new_date y m;
        let d2 := Frame (<[i := CDate dt]> (col_date d1)) (col_count d1) in
        time_sleep sleep;;
        loop term db sleep (S i) rest d2 (Some r)
  end.

Definition get_df (term db : string) (dates : list period)
    (overwrite : bool) (sleep : delay) : M table :=
  let cache_file := cache_file_name term db in
  let ndates := length dates in
  ex ← path_exists cache_file;
  (if negb ex || overwrite
   then to_csv cache_file (fresh_frame ndates)
   else mret tt);;
  df ← read_csv cache_file;
  let d := df in                                  (* d = df.to_dict() *)
  '(d, search) ← (if negb (np_all_nonneg (col_count df))
                  then loop term db sleep 0 dates d None
                  else mret (d, None));
  match search with
  | Some r => print (remaining r +:+ " queries remaining")
  | None => mret tt
  end;;
  let df := d in                                  (* df = pd.DataFrame(d) *)
  to_csv cache_file df;;
  to_datetime df.

(** The queries among a list of events. *)
Definition queries (evs : list event) : list string :=
  omap (fun e => match e with Ev_query q _ => Some q | _ => None end) evs.

(** The answers the service gave, in order. *)
Definition answers (evs : list event) : list response :=
  omap (fun e => match e with Ev_query _ a => a | _ => None end) evs.

(** The delays among a list of events. *)
Definition sleeps (evs : list event) : list delay :=
  omap (fun e => match e with Ev_sleep s => Some s | _ => None end) evs.

(** The file writes among a list of events. *)
Definition writes (evs : list event) : list (string * csv) :=
  omap (fun e => match e with Ev_to_csv f c => Some (f, c) | _ => None end) evs.

End Effects.

Arguments event : clear implicits.
Arguments state : clear implicits.
Arguments run : clear implicits.
Arguments M : clear implicits.

(** ** Vocabulary of the statements *)

(** The date the loop stores for a period. *)
Definition first_of_month (p : period) : date := Date p.1 p.2 1.

(** The query the loop sends for a period. *)
Definition query_of (term db : string) (p : period) : string :=
  q_format term p.1 p.2 db.

(** A period [datetime.date(y, m, 1)] accepts. *)
Definition period_valid (p : period) : bool := valid_date p.1 p.2 1.

(** A period the loop can store and the final conversion can hold. *)
Definition period_ok (p : period) : bool :=
  period_valid p && in_bounds (first_of_month p).

(** A service that answers every query, whatever its state. *)
Definition responsive {world : Type}
    (svc : world -> string -> option response * world) : Prop :=
  forall w q, is_Some (svc w q).1.

(** A record is resolved when its count passes the test [count >= 0] of the
    loop, and pending otherwise. *)
Definition resolved (c : Z) : bool := 0 <=? c.

(** The periods whose record is pending, cache and period list being
    aligned by position. *)
Fixpoint pending (counts : list Z) (ps : list period) : list period :=
  match counts, ps with
  | c :: cs, p :: ps' =>
      if resolved c then pending cs ps' else p :: pending cs ps'
  | _, _ => []
  end.

(** The count column once the pending records have taken the answers [rs]
    in order; records beyond the period list stay as they are. *)
Fixpoint fill_counts (counts : list Z) (ps : list period)
    (rs : list response) : list Z :=
  match counts, ps with
  | c :: cs, _ :: ps' =>
      if resolved c then c :: fill_counts cs ps' rs
      else match rs with
           | r :: rs' => Z.of_nat (nresults r) :: fill_counts cs ps' rs'
           | [] => counts
           end
  | _, _ => counts
  end.

(** The date column once the pending records have taken the first day of
    their period. *)
Fixpoint fill_dates (cells : list cell) (counts : list Z)
    (ps : list period) : list cell :=
  match cells, counts, ps with
  | x :: xs, c :: cs, p :: ps' =>
      (if resolved c then x else CDate (first_of_month p))
        :: fill_dates xs cs ps'
  | _, _, _ => cells
  end.

(** The events of the loop for the pending periods and their answers. *)
Definition loop_events {delay : Type} (term db : string) (sleep : delay)
    (ps : list period) (rs : list response) : list (event delay) :=
  flat_map (fun pr => [Ev_query (query_of term db pr.1) (Some pr.2); Ev_sleep sleep])
           (zip ps rs).

(** The line printed after the loop when a query was executed. *)
Definition print_events {delay : Type} (search : option response)
    : list (event delay) :=
  match search with
  | Some r => [Ev_print (remaining r +:+ " queries remaining")]
  | None => []
  end.

Definition is_query {delay : Type} (e : event delay) : bool :=
  match e with Ev_query _ _ => true | _ => false end.

Definition is_sleep {delay : Type} (e : event delay) : bool :=
  match e with Ev_sleep _ => true | _ => false end.

(** An event that is neither a network call nor a wait. *)
Definition quiet {delay : Type} (e : event delay) : Prop :=
  is_query e = false /\ is_sleep e = false.

(** The shape of a throttled run: every network call is followed at once by
    a sleep of the requested length, except that a run may end on a call;
    no sleep happens anywhere else. *)
Inductive throttled {delay : Type} (sleep : delay)
    : list (event delay) -> Prop :=
| throttled_nil : throttled sleep []
| throttled_quiet e evs :
    quiet e -> throttled sleep evs -> throttled sleep (e :: evs)
| throttled_last q a evs :
    Forall quiet evs -> throttled sleep (Ev_query q a :: evs)
| throttled_step q a evs :
    throttled sleep evs ->
    throttled sleep (Ev_query q a :: Ev_sleep sleep :: evs).

(** A date cell the program itself can have produced. *)
Definition cell_ok (c : cell) : Prop :=
  match c with
  | CStr _ => True
  | CDate dt => valid_date (year dt) (month dt) (day dt) = true
  end.

(** Both columns have the same keys, and the date objects are real dates. *)
Definition wf_frame (d : DataFrame) : Prop :=
  length (col_date d) = length (col_count d) /\ Forall cell_ok (col_date d).

(** The rows of a freshly created cache. *)
Definition fresh_csv (n : nat) : csv := replicate n ("1984-01-01"%string, -1).

(** The cache rows [get_df] loads: the stored ones, or fresh ones when the
    file is missing or [overwrite] is set. *)
Definition loaded_csv {world : Type} (s : state world) (term db : string)
    (n : nat) (overwrite : bool) : csv :=
  match files s !! cache_file_name term db with
  | Some c => if overwrite then fresh_csv n else c
  | None => fresh_csv n
  end.

(** Whether [get_df] creates the cache anew: [not path.exists(f) or overwrite]. *)
Definition stale {world : Type} (s : state world) (term db : string)
    (overwrite : bool) : bool :=
  negb (bool_decide (is_Some (files s !! cache_file_name term db))) || overwrite.

(** The state in which the loop starts, and the write that led to it. *)
Definition start_state {world : Type} (s : state world) (term db : string)
    (n : nat) (overwrite : bool) : state world :=
  if stale s term db overwrite
  then State (<[cache_file_name term db := fresh_csv n]> (files s)) (ads s)
  else s.

Definition start_events {world delay : Type} (s : state world)
    (term db : string) (n : nat) (overwrite : bool) : list (event delay) :=
  if stale s term db overwrite
  then [Ev_to_csv (cache_file_name term db) (fresh_csv n)]
  else [].

(** The guarded loop: [if not np.all(df["count"] >= 0): for ...]. *)
Definition scan {world delay : Type}
    (svc : world -> string -> option response * world)
    (term db : string) (sleep : delay) (ps : list period) (c : csv)
    : M world delay (DataFrame * option response) :=
  if negb (np_all_nonneg (c.*2))
  then loop svc term db sleep 0 ps (frame_of c) None
  else mret (frame_of c, None).



(** The cache file after a run holds, for every period answered during the
    run, the answered count at the position of that period. *)
Definition answers_persisted {world delay : Type} (term db : string)
    (ps : list period) (R : run world delay table) : Prop :=
  forall j p r,
    ps !! j = Some p ->
    Ev_query (query_of term db p) (Some r) ∈ events R ->
    exists rows dt,
      files (final R) !! cache_file_name term db = Some rows /\
      rows !! j = Some (dt, Z.of_nat (nresults r)).


(** ** Sample services and states *)

Module Demo.

(** Answers every query; the state counts the calls made so far. *)
Definition svc_ok (w : nat) (q : string) : option response * nat :=
  (Some (Response (10 + w) "4999"), S w).

(** Fails on its second call. *)
Definition svc_flaky (w : nat) (q : string) : option response * nat :=
  (if Nat.eqb w 1 then None else Some (Response (10 + w) "4999"), S w).

Definition two : list period := [(1991, 2); (1991, 3)].

Definition empty_disk : state nat := State ∅ 0%nat.

(** A cache of three resolved records. *)
Definition rows_resolved : csv :=
  [("1991-02-01"%string, 5); ("1991-03-01"%string, 7);
   ("1991-04-01"%string, 3)].

Definition three_resolved : state nat :=
  State {[ "python_astronomy.csv"%string := rows_resolved ]} 0%nat.

(** A cache of three records, the middle one pending. *)
Definition rows_one_pending : csv :=
  [("1991-02-01"%string, 5); ("1984-01-01"%string, -1);
   ("1991-04-01"%string, 3)].

Definition one_pending : state nat :=
  State {[ "python_astronomy.csv"%string := rows_one_pending ]} 0%nat.

Definition three : list period := [(1991, 2); (1991, 3); (1991, 4)].

(** A stored cache of one pending record, shorter than [two]. *)
Definition rows_short : csv := [("1984-01-01"%string, -1)].

Definition short_pending : state nat :=
  State {[ "python_astronomy.csv"%string := rows_short ]} 0%nat.

(** A period list with a month the calendar does not have. *)
Definition thirteenth : list period := [(1991, 13)].

(** Never answers. *)
Definition svc_down (w : nat) (q : string) : option response * nat :=
  (None, S w).

End Demo.

(** ** The rest of the notebook: statement vocabulary and callers *)

(** The lines printed, among a list of events. *)
Definition prints {delay : Type} (evs : list (event delay)) : list string :=
  omap (fun e => match e with Ev_print l => Some l | _ => None end) evs.

(** A count column the guarded loop passes over without a query: every
    count is resolved, or at least those of the period list exist and are. *)
Definition settled (counts : list Z) (ps : list period) : Prop :=
  np_all_nonneg counts = true \/
  (forall j, (j < length ps)%nat ->
             exists x, counts !! j = Some x /\ resolved x = true).

(** The four fetching cells of the notebook, run in order; [sleep] stands
    for the default 0.1 of [get_df]. *)
Definition notebook_fetch {world delay : Type}
    (svc : world -> string -> option response * world) (sleep : delay)
    : M world delay (table * table * table * table) :=
  py_astro ← get_df svc "python" "astronomy" dates false sleep;
  astropy_astro ← get_df svc "astropy" "astronomy" dates false sleep;
  idl_astro ← get_df svc "idl" "astronomy" dates false sleep;
  matlab_astro ← get_df svc "matlab" "astronomy" dates false sleep;
  mret (py_astro, astropy_astro, idl_astro, matlab_astro).

(** The terms of the four fetching cells. *)
Definition notebook_terms : list string := ["python"; "astropy"; "idl"; "matlab"]%string.

(** A run writes the cache file of its term and database. *)
Definition rewrites_cache {world delay : Type} (term db : string)
    (R : run world delay table) : Prop :=
  exists c, Ev_to_csv (cache_file_name term db) c ∈ events R.

(** * Properties *)

(** ** Formatting *)

Lemma fmt_02d_two_digits m :
  0 <= m < 100 -> Fmt.fmt_0d 2 m = Fmt.two_digits m.
Proof.
  intros Hm.
  assert (H : forallb (fun k => String.eqb (Fmt.fmt_0d 2 k) (Fmt.two_digits k))
                      (seqZ 0 100) = true) by (vm_compute; reflexivity).
  rewrite forallb_forall in H.
  apply String.eqb_eq, H, list_elem_of_In, elem_of_seqZ. lia.
Qed.

Lemma fmt_04d_four_digits y :
  0 <= y < 10000 -> Fmt.fmt_0d 4 y = Fmt.four_digits y.
Proof.
  intros Hy.
  assert (H : forallb (fun k => String.eqb (Fmt.fmt_0d 4 k) (Fmt.four_digits k))
                      (seqZ 0 10000) = true) by (vm_compute; reflexivity).
  rewrite forallb_forall in H.
  apply String.eqb_eq, H, list_elem_of_In, elem_of_seqZ. lia.
Qed.

Lemma digit_val_digit k : 0 <= k <= 9 -> digit_val (Fmt.digit k) = Some k.
Proof.
  intros Hk.
  assert (H : forallb (fun k => bool_decide (digit_val (Fmt.digit k) = Some k))
                      (seqZ 0 10) = true) by (vm_compute; reflexivity).
  rewrite forallb_forall in H.
  eapply bool_decide_eq_true_1, H, list_elem_of_In, elem_of_seqZ. lia.
Qed.

(** ** Dates read back, the period grid, the query string *)

Lemma append_String a s t : String a s +:+ t = String a (s +:+ t).
Proof. reflexivity. Qed.

Lemma append_Empty t : EmptyString +:+ t = t.
Proof. reflexivity. Qed.

Lemma parse_iso_digits a b c e f g h k :
  0 <= a <= 9 -> 0 <= b <= 9 -> 0 <= c <= 9 -> 0 <= e <= 9 ->
  0 <= f <= 9 -> 0 <= g <= 9 -> 0 <= h <= 9 -> 0 <= k <= 9 ->
  parse_iso (String (Fmt.digit a) (String (Fmt.digit b) (String (Fmt.digit c)
              (String (Fmt.digit e) (String "-" (String (Fmt.digit f)
                (String (Fmt.digit g) (String "-" (String (Fmt.digit h)
                  (String (Fmt.digit k) EmptyString))))))))))
  = datetime_date (1000 * a + 100 * b + 10 * c + e) (10 * f + g) (10 * h + k).
Proof.
  intros. unfold parse_iso. cbn [list_ascii_of_string].
  rewrite !digit_val_digit by assumption. reflexivity.
Qed.

Lemma valid_date_range y m d :
  valid_date y m d = true -> 1 <= y <= 9999 /\ 1 <= m <= 12 /\ 1 <= d <= 31.
Proof.
  unfold valid_date, days_in_month. intros H.
  repeat (apply andb_prop in H; destruct H as [H ?]).
  repeat match goal with
         | H : context [if ?b then _ else _] |- _ => destruct b
         end; lia.
Qed.

Lemma parse_iso_isoformat y m d :
  valid_date y m d = true -> parse_iso (isoformat (Date y m d)) = Some (Date y m d).
Proof.
  intros Hv. destruct (valid_date_range _ _ _ Hv) as (Hy & Hm & Hd).
  unfold isoformat. cbn [year month day].
  rewrite fmt_04d_four_digits, !fmt_02d_two_digits by lia.
  unfold Fmt.four_digits, Fmt.two_digits.
  change (String.append "-") with (String "-"%char).
  repeat (rewrite append_String || rewrite append_Empty).
  rewrite parse_iso_digits by (Z.div_mod_to_equations; lia).
  replace (1000 * (y / 100 / 10) + 100 * (y / 100 mod 10) +
           10 * (y mod 100 / 10) + y mod 100 mod 10) with y
    by (Z.div_mod_to_equations; lia).
  replace (10 * (m / 10) + m mod 10) with m by (Z.div_mod_to_equations; lia).
  replace (10 * (d / 10) + d mod 10) with d by (Z.div_mod_to_equations; lia).
  unfold datetime_date. rewrite Hv. reflexivity.
Qed.

Lemma to_datetime1_str_cell c :
  cell_ok c -> to_datetime1 (CStr (str_cell c)) = to_datetime1 c.
Proof.
  destruct c as [s | [y m d]]; cbn [str_cell cell_ok year month day]; [reflexivity |].
  intros Hv. unfold to_datetime1. rewrite parse_iso_isoformat by assumption.
  reflexivity.
Qed.

Lemma chron_lt_trans : Transitive chron_lt.
Proof. intros [a b] [c d] [e f]; unfold chron_lt; cbn; lia. Qed.

Lemma chron_ltb_spec p q : chron_ltb p q = true <-> chron_lt p q.
Proof. unfold chron_ltb, chron_lt. destruct p, q; cbn. lia. Qed.

Lemma ascending_sorted l : ascending l = true -> StronglySorted chron_lt l.
Proof.
  intros H. apply Sorted_StronglySorted; [apply chron_lt_trans |].
  induction l as [| p l IH]; [constructor |].
  destruct l as [| q tl]; [repeat constructor |].
  cbn [ascending] in H. apply andb_prop in H as [H1 H2].
  constructor; [apply IH, H2 | constructor; apply chron_ltb_spec, H1].
Qed.

Lemma grid_head :
  List.filter in_window (product years months) = (1991, 1) :: dates.
Proof. vm_compute. reflexivity. Qed.

(** The grid holds exactly the months after January 1991 and before March
    2018. *)
Lemma dates_members y m :
  (y, m) ∈ dates <->
  1 <= m <= 12 /\ chron_lt (1991, 1) (y, m) /\ chron_lt (y, m) (2018, 3).
Proof.
  split.
  - intros Hin.
    assert (H : forallb in_grid dates = true) by (vm_compute; reflexivity).
    rewrite forallb_forall in H. apply list_elem_of_In, H in Hin.
    unfold in_grid in Hin.
    repeat (apply andb_prop in Hin; destruct Hin as [Hin ?]).
    rewrite <- !chron_ltb_spec. cbn in *. repeat split; try assumption; lia.
  - intros (Hm & Hlo & Hhi). unfold chron_lt in Hlo, Hhi. cbn in Hlo, Hhi.
    assert (Hin : In (y, m) ((1991, 1) :: dates)).
    { rewrite <- grid_head. apply filter_In. split.
      - unfold product. apply in_flat_map. exists y. split.
        + apply list_elem_of_In, elem_of_seqZ. lia.
        + apply in_map, list_elem_of_In, elem_of_seqZ. lia.
      - unfold in_window. lia. }
    destruct Hin as [Heq | Hin]; [injection Heq as <- <-; lia |].
    apply list_elem_of_In, Hin.
Qed.

(** C5: the grid of periods starts at (1991, 2), ends at (2018, 2), has
    12 * (2018 - 1991) + 2 - 1 = 325 elements, is in strictly increasing
    chronological order, and holds every month after January 1991 and
    before March 2018 and nothing else. *)
Theorem dates_grid :
  head dates = Some (1991, 2) /\
  last dates = Some (2018, 2) /\
  length dates = 325%nat /\
  12 * (2018 - 1991) + 2 - 1 = 325 /\
  StronglySorted chron_lt dates /\
  (forall y m, (y, m) ∈ dates <->
     1 <= m <= 12 /\ chron_lt (1991, 1) (y, m) /\ chron_lt (y, m) (2018, 3)).
Proof.
  split; [reflexivity |]. split; [reflexivity |]. split; [reflexivity |].
  split; [reflexivity |]. split; [| exact dates_members].
  apply ascending_sorted. vm_compute. reflexivity.
Qed.

(** The query sent for February 1991 is not the string of the documented
    shape: the code puts two blanks before [pubdate:]. *)
Lemma q_format_literal_differs :
  q_format "python" 1991 2 "astronomy" <> spec_query_shape "python" 1991 2 "astronomy".
Proof. vm_compute. discriminate. Qed.

(** C8 as the code has it: the query string is
    full:"<term>"  pubdate:<year>-<month> database:"<database>" with two
    blanks before [pubdate:], the year in plain decimal and, for every
    month from 0 to 99, the month as exactly two digits. *)
Theorem q_format_shape term db y m :
  0 <= m < 100 ->
  q_format term y m db =
    "full:" +:+ Fmt.dq +:+ term +:+ Fmt.dq +:+ "  pubdate:" +:+ Fmt.fmt_d y +:+
    "-" +:+ Fmt.two_digits m +:+ " database:" +:+ Fmt.dq +:+ db +:+ Fmt.dq.
Proof. intros Hm. unfold q_format. rewrite fmt_02d_two_digits by assumption. reflexivity. Qed.

(** ** The loop, one iteration at a time *)

Section Loop.
Context {world delay : Type}.
Variable svc : world -> string -> option response * world.
Variables term db : string.
Variable sleep : delay.

Lemma run_eta {A} (r : run world delay A) : Run (result r) (final r) (events r) = r.
Proof. destruct r; reflexivity. Qed.

Lemma loop_nil i d search s : loop svc term db sleep i [] d search s = Run (inr (d, search)) s [].
Proof. reflexivity. Qed.

Lemma loop_key_error i p rest d search s :
  col_count d !! i = None ->
  loop svc term db sleep i (p :: rest) d search s = Run (inl (KeyError i)) s [].
Proof.
  intros H. destruct p as [y m]. cbn [loop].
  unfold mbind, M_bind, bind, getitem_count. rewrite H. reflexivity.
Qed.

Lemma loop_skip i p rest d search s c :
  col_count d !! i = Some c -> resolved c = true ->
  loop svc term db sleep i (p :: rest) d search s = loop svc term db sleep (S i) rest d search s.
Proof.
  intros H Hc. destruct p as [y m]. cbn [loop].
  unfold mbind, M_bind, bind, getitem_count. rewrite H. cbn.
  unfold resolved in Hc. rewrite Hc. apply run_eta.
Qed.

Lemma loop_query_fails i p rest d search s c w :
  col_count d !! i = Some c -> resolved c = false ->
  svc (ads s) (query_of term db p) = (None, w) ->
  loop svc term db sleep i (p :: rest) d search s =
    Run (inl ServiceError) (State (files s) w) [Ev_query (query_of term db p) None].
Proof.
  intros H Hc Hq. destruct p as [y m]. cbn [loop].
  unfold mbind, M_bind, bind, getitem_count, run_query. rewrite H. cbn.
  unfold resolved in Hc. rewrite Hc. unfold query_of in Hq. cbn in Hq.
  rewrite Hq. reflexivity.
Qed.

Lemma loop_bad_period i p rest d search s c r w :
  col_count d !! i = Some c -> resolved c = false ->
  svc (ads s) (query_of term db p) = (Some r, w) ->
  period_valid p = false ->
  loop svc term db sleep i (p :: rest) d search s =
    Run (inl ValueError) (State (files s) w) [Ev_query (query_of term db p) (Some r)].
Proof.
  intros H Hc Hq Hp. destruct p as [y m]. cbn [loop].
  unfold mbind, M_bind, bind, getitem_count, run_query, new_date, datetime_date.
  rewrite H. cbn.
  unfold resolved in Hc. rewrite Hc. unfold query_of in Hq. cbn in Hq.
  rewrite Hq. unfold period_valid in Hp. cbn in Hp. cbn. rewrite Hp. reflexivity.
Qed.

Lemma loop_fetch i p rest d search s c r w :
  col_count d !! i = Some c -> resolved c = false ->
  svc (ads s) (query_of term db p) = (Some r, w) ->
  period_valid p = true ->
  loop svc term db sleep i (p :: rest) d search s =
    let R := loop svc term db sleep (S i) rest
               (Frame (<[i := CDate (first_of_month p)]> (col_date d))
                      (<[i := Z.of_nat (nresults r)]> (col_count d)))
               (Some r) (State (files s) w) in
    Run (result R) (final R)
        (Ev_query (query_of term db p) (Some r) :: Ev_sleep sleep :: events R).
Proof.
  intros H Hc Hq Hp. destruct p as [y m]. cbn [loop].
  unfold mbind, M_bind, bind, getitem_count, run_query, new_date, datetime_date,
    time_sleep.
  rewrite H. cbn.
  unfold resolved in Hc. rewrite Hc. unfold query_of in Hq. cbn in Hq.
  rewrite Hq. unfold period_valid in Hp. cbn in Hp. cbn. rewrite Hp. cbn.
  reflexivity.
Qed.

(** The five ways one iteration can go. *)
Ltac loop_cases i p rest d search s :=
  let c := fresh "c" in let r := fresh "r" in let w := fresh "w" in
  let Hlk := fresh "Hlk" in let Hres := fresh "Hres" in
  let Hq := fresh "Hq" in let Hp := fresh "Hp" in
  destruct (col_count d !! i) as [c |] eqn:Hlk;
  [ destruct (resolved c) eqn:Hres;
    [ rewrite (loop_skip i p rest d search s c Hlk Hres)
    | destruct (svc (ads s) (query_of term db p)) as [[r |] w] eqn:Hq;
      [ destruct (period_valid p) eqn:Hp;
        [ rewrite (loop_fetch i p rest d search s c r w Hlk Hres Hq Hp)
        | rewrite (loop_bad_period i p rest d search s c r w Hlk Hres Hq Hp) ]
      | rewrite (loop_query_fails i p rest d search s c w Hlk Hres Hq) ] ]
  | rewrite (loop_key_error i p rest d search s Hlk) ].

(** The loop never touches the files. *)
Lemma loop_files ps : forall i d search s,
  files (final (loop svc term db sleep i ps d search s)) = files s.
Proof.
  induction ps as [| p rest IH]; intros i d search s; [reflexivity |].
  loop_cases i p rest d search s; cbn; try reflexivity.
  - apply IH.
  - rewrite IH. reflexivity.
Qed.

(** Whatever happens, the events of the loop alternate query and sleep. *)
Lemma loop_throttled ps : forall i d search s,
  throttled sleep (events (loop svc term db sleep i ps d search s)).
Proof.
  induction ps as [| p rest IH]; intros i d search s; [constructor |].
  loop_cases i p rest d search s; cbn.
  - apply IH.
  - apply throttled_step, IH.
  - apply throttled_last. constructor.
  - apply throttled_last. constructor.
  - constructor.
Qed.

(** The exceptions the loop can raise. *)
Lemma loop_exn ps : forall i d search s e,
  result (loop svc term db sleep i ps d search s) = inl e ->
  (exists j, e = KeyError j) \/ e = ValueError \/ e = ServiceError.
Proof.
  induction ps as [| p rest IH]; intros i d search s e; [discriminate |].
  loop_cases i p rest d search s; cbn; intros He;
    try (injection He as <-; eauto; fail); eauto.
Qed.

(** A run ended by a failed query: the failing record was pending when
    the loop started, and the failed query is the last event. *)
Lemma loop_service_error ps : forall i d search s,
  result (loop svc term db sleep i ps d search s) = inl ServiceError ->
  exists j p c,
    ps !! j = Some p /\ col_count d !! (i + j)%nat = Some c /\
    resolved c = false /\
    last (events (loop svc term db sleep i ps d search s)) = Some (Ev_query (query_of term db p) None).
Proof.
  induction ps as [| p rest IH]; intros i d search s; [discriminate |].
  loop_cases i p rest d search s; cbn; intros He; try discriminate.
  - destruct (IH _ _ _ _ He) as (j & q & c' & Hj & Hc & Hr & Hl).
    exists (S j), q, c'. rewrite Nat.add_succ_r. auto.
  - destruct (IH _ _ _ _ He) as (j & q & c' & Hj & Hc & Hr & Hl).
    exists (S j), q, c'. rewrite Nat.add_succ_r. split; [exact Hj |].
    cbn in Hc. rewrite list_lookup_insert_ne in Hc by lia.
    split; [exact Hc |]. split; [exact Hr |].
    rewrite !last_cons, Hl. reflexivity.
  - exists 0%nat, p, c. rewrite Nat.add_0_r. auto.
Qed.

(** A completed loop keeps the frame well formed. *)
Lemma loop_wf ps : forall i d search s d' search',
  wf_frame d ->
  result (loop svc term db sleep i ps d search s) = inr (d', search') ->
  wf_frame d'.
Proof.
  induction ps as [| p rest IH]; intros i d search s d' search' Hwf.
  - cbn. intros [= <- <-]. exact Hwf.
  - loop_cases i p rest d search s; cbn; intros He; try discriminate.
    + eapply IH; eauto.
    + eapply IH; [| exact He]. destruct Hwf as [Hlen Hok]. split; cbn.
      * rewrite !length_insert. exact Hlen.
      * apply Forall_insert; [exact Hok |]. exact Hp.
Qed.

Lemma insert_middle {A} (l1 l2 : list A) x y :
  <[length l1 := y]> (l1 ++ x :: l2) = l1 ++ y :: l2.
Proof.
  rewrite <- (Nat.add_0_r (length l1)) at 1. rewrite insert_app_r. reflexivity.
Qed.

Lemma pending_nil_r cs : pending cs [] = [].
Proof. destruct cs; reflexivity. Qed.

Lemma fill_counts_nil_r cs rs : fill_counts cs [] rs = cs.
Proof. destruct cs; reflexivity. Qed.

Lemma fill_dates_nil_r xs cs : fill_dates xs cs [] = xs.
Proof. destruct xs, cs; reflexivity. Qed.

(** With a service that answers and periods the calendar accepts, the loop
    is determined: it queries the pending periods in order, stores the
    answers, and fails only when the period list outruns the cache. *)
Lemma loop_spec ps : forall pre_d pre_c xs cs search s,
  responsive svc ->
  Forall (fun p => period_valid p = true) (pending cs ps) ->
  length pre_d = length pre_c -> length xs = length cs ->
  exists rs,
    length rs = length (pending cs ps) /\
    events (loop svc term db sleep (length pre_c) ps (Frame (pre_d ++ xs) (pre_c ++ cs)) search s)
      = loop_events term db sleep (pending cs ps) rs /\
    result (loop svc term db sleep (length pre_c) ps (Frame (pre_d ++ xs) (pre_c ++ cs)) search s)
      = if decide (length ps <= length cs)%nat
        then inr (Frame (pre_d ++ fill_dates xs cs ps)
                        (pre_c ++ fill_counts cs ps rs),
                  from_option Some search (last rs))
        else inl (KeyError (length pre_c + length cs)).
Proof.
  induction ps as [| p rest IH]; intros pre_d pre_c xs cs search s Hsvc Hval Hpre Hlen.
  - exists []. rewrite pending_nil_r, fill_counts_nil_r, fill_dates_nil_r.
    cbn. rewrite decide_True by lia. auto.
  - destruct cs as [| c cs'].
    + exists []. rewrite loop_key_error.
      2:{ cbn. rewrite app_nil_r. apply lookup_ge_None. lia. }
      cbn. rewrite decide_False by lia. rewrite Nat.add_0_r. auto.
    + destruct xs as [| x xs']; [discriminate |].
      injection Hlen as Hlen.
      assert (Hlk : col_count (Frame (pre_d ++ x :: xs') (pre_c ++ c :: cs'))
                      !! length pre_c = Some c) by apply list_lookup_middle, eq_refl.
      cbn [pending fill_counts fill_dates] in *.
      destruct (resolved c) eqn:Hres.
      * rewrite (loop_skip _ _ _ _ _ _ _ Hlk Hres).
        destruct (IH (pre_d ++ [x]) (pre_c ++ [c]) xs' cs' search s Hsvc Hval)
          as (rs & Hrs & Hev & Hr).
        { rewrite !length_app. cbn. lia. }
        { exact Hlen. }
        exists rs. rewrite <- !(assoc_L (++)) in Hev, Hr. cbn in Hev, Hr.
        rewrite length_app in Hev, Hr. cbn in Hev, Hr.
        rewrite Nat.add_1_r in Hev, Hr.
        split; [exact Hrs |]. split; [exact Hev |]. rewrite Hr.
        cbn [length]. destruct (decide (length rest <= length cs')%nat);
          [rewrite decide_True by lia | rewrite decide_False by lia].
        -- rewrite <- !(assoc_L (++)). reflexivity.
        -- f_equal. f_equal. lia.
      * destruct (Hsvc (ads s) (query_of term db p)) as [r Hr0].
        destruct (svc (ads s) (query_of term db p)) as [a w] eqn:Hq.
        cbn in Hr0. subst a.
        apply Forall_cons in Hval as [Hp Hval].
        rewrite (loop_fetch _ _ _ _ _ _ _ r w Hlk Hres Hq Hp).
        cbn [col_date col_count].
        rewrite insert_middle. rewrite <- Hpre, insert_middle, Hpre.
        destruct (IH (pre_d ++ [CDate (first_of_month p)])
                     (pre_c ++ [Z.of_nat (nresults r)]) xs' cs' (Some r)
                     (State (files s) w) Hsvc Hval)
          as (rs & Hrs & Hev & Hr).
        { rewrite !length_app. cbn. lia. }
        { exact Hlen. }
        exists (r :: rs). rewrite <- !(assoc_L (++)) in Hev, Hr. cbn in Hev, Hr.
        rewrite length_app in Hev, Hr. cbn in Hev, Hr.
        rewrite Nat.add_1_r in Hev, Hr.
        split; [cbn; lia |]. cbn zeta. cbn [events result]. rewrite Hev, Hr.
        split; [reflexivity |].
        cbn [length]. destruct (decide (length rest <= length cs')%nat);
          [rewrite decide_True by lia | rewrite decide_False by lia].
        -- rewrite <- !(assoc_L (++)). cbn. rewrite last_cons.
           destruct (last rs); reflexivity.
        -- f_equal. f_equal. lia.
Qed.

End Loop.

(** ** From the loop to the whole function *)

Lemma csv_of_fresh_frame n : csv_of (fresh_frame n) = fresh_csv n.
Proof.
  unfold csv_of, fresh_frame, fresh_csv. cbn [col_date col_count].
  rewrite fmap_replicate, zip_with_replicate. reflexivity.
Qed.

Lemma csv_of_frame_of c : csv_of (frame_of c) = c.
Proof.
  unfold csv_of, frame_of. cbn [col_date col_count].
  rewrite <- list_fmap_compose.
  rewrite (list_fmap_ext (str_cell ∘ CStr) id (c.*1)) by reflexivity.
  rewrite list_fmap_id. apply zip_fst_snd.
Qed.

Lemma wf_frame_of c : wf_frame (frame_of c).
Proof.
  split; cbn.
  - rewrite !length_fmap. reflexivity.
  - apply Forall_fmap, Forall_true. intros x. exact I.
Qed.

Lemma pending_all_resolved cs : forall ps,
  np_all_nonneg cs = true -> pending cs ps = [].
Proof.
  induction cs as [| c cs IH]; intros [| p ps] H; try reflexivity.
  cbn in H. apply andb_prop in H as [Hc H]. cbn. unfold resolved. rewrite Hc.
  apply IH, H.
Qed.

Lemma fill_counts_all_resolved cs : forall ps rs,
  np_all_nonneg cs = true -> fill_counts cs ps rs = cs.
Proof.
  induction cs as [| c cs IH]; intros [| p ps] rs H; try reflexivity.
  cbn in H. apply andb_prop in H as [Hc H]. cbn. unfold resolved. rewrite Hc.
  f_equal. apply IH, H.
Qed.

Lemma fill_dates_all_resolved cs : forall xs ps,
  np_all_nonneg cs = true -> fill_dates xs cs ps = xs.
Proof.
  induction cs as [| c cs IH]; intros [| x xs] [| p ps] H; try reflexivity.
  cbn in H. apply andb_prop in H as [Hc H]. cbn. unfold resolved. rewrite Hc.
  f_equal. apply IH, H.
Qed.

Section GetDf.
Context {world delay : Type}.
Variable svc : world -> string -> option response * world.
Variables term db : string.
Variable sleep : delay.

Lemma mbind_inr {A B} (m : M world delay A) (k : A -> M world delay B) s a s' evs :
  m s = Run (inr a) s' evs ->
  (m ≫= k) s = Run (result (k a s')) (final (k a s')) (evs ++ events (k a s')).
Proof. intros H. unfold mbind, M_bind, bind. rewrite H. reflexivity. Qed.

Lemma mbind_inl {A B} (m : M world delay A) (k : A -> M world delay B) s e s' evs :
  m s = Run (inl e) s' evs -> (m ≫= k) s = Run (inl e) s' evs.
Proof. intros H. unfold mbind, M_bind, bind. rewrite H. reflexivity. Qed.

(** The lines after the loop: report the budget, write the cache back,
    convert the dates. *)
Lemma finish_run (m : M world delay (DataFrame * option response)) f s :
  (m ≫= λ '(d, search),
     match search with
     | Some r => print (remaining r +:+ " queries remaining")
     | None => mret ()
     end ≫= λ _ : (), to_csv f d ≫= λ _ : (), to_datetime d) s =
  match result (m s) with
  | inl e => Run (inl e) (final (m s)) (events (m s))
  | inr (d, search) =>
      Run (match mapM to_datetime1 (col_date d) with
           | Some ds => inr (Table ds (col_count d))
           | None => inl DatetimeError
           end)
          (State (<[f := csv_of d]> (files (final (m s)))) (ads (final (m s))))
          (events (m s) ++ print_events search ++ [Ev_to_csv f (csv_of d)])
  end.
Proof.
  unfold mbind, M_bind, bind.
  destruct (m s) as [[e | [d [r |]]] s2 evs]; cbn [result final events];
    [reflexivity | |];
    unfold to_datetime; destruct (mapM to_datetime1 (col_date d));
    cbn; rewrite ?app_nil_r; reflexivity.
Qed.

Lemma scan_unfold ps c :
  (if negb (np_all_nonneg (col_count (frame_of c)))
   then loop svc term db sleep 0 ps (frame_of c) None
   else mret (frame_of c, None)) = scan svc term db sleep ps c.
Proof. reflexivity. Qed.

(** [get_df] in three steps: create the cache if need be, scan it, write
    it back and convert the dates. *)
Lemma get_df_run ps ow s :
  let f := cache_file_name term db in
  let n := length ps in
  let L := scan svc term db sleep ps (loaded_csv s term db n ow)
                (start_state s term db n ow) in
  get_df svc term db ps ow sleep s =
    match result L with
    | inl e => Run (inl e) (final L) (start_events s term db n ow ++ events L)
    | inr (d, search) =>
        Run (match mapM to_datetime1 (col_date d) with
             | Some ds => inr (Table ds (col_count d))
             | None => inl DatetimeError
             end)
            (State (<[f := csv_of d]> (files (final L))) (ads (final L)))
            (start_events s term db n ow ++ events L ++ print_events search ++
             [Ev_to_csv f (csv_of d)])
    end.
Proof.
  intros f n L. subst L.
  unfold get_df. fold f. fold n.
  erewrite mbind_inr by (unfold path_exists; reflexivity).
  cbn [result final events app].
  unfold loaded_csv, start_state, start_events, stale. fold f.
  destruct (files s !! f) as [c |] eqn:Hf.
  - rewrite bool_decide_eq_true_2 by eauto. destruct ow; cbn [negb orb].
    + erewrite mbind_inr by (unfold to_csv; reflexivity).
      erewrite mbind_inr.
      2:{ unfold read_csv. cbn [files]. rewrite lookup_insert_eq. reflexivity. }
      rewrite csv_of_fresh_frame. cbn [result final events app].
      rewrite finish_run, scan_unfold.
      destruct (result (scan _ _ _ _ _ _ _)) as [e | [d search]]; reflexivity.
    + erewrite mbind_inr by reflexivity.
      erewrite mbind_inr by (unfold read_csv; rewrite Hf; reflexivity).
      cbn [result final events app].
      rewrite finish_run, scan_unfold.
      destruct (result (scan _ _ _ _ _ _ _)) as [e | [d search]];
        destruct (scan _ _ _ _ _ _ _); reflexivity.
  - rewrite bool_decide_eq_false_2 by (intros [? ?]; discriminate).
    cbn [negb orb].
    erewrite mbind_inr by (unfold to_csv; reflexivity).
    erewrite mbind_inr.
    2:{ unfold read_csv. cbn [files]. rewrite lookup_insert_eq. reflexivity. }
    rewrite csv_of_fresh_frame. cbn [result final events app].
    rewrite finish_run, scan_unfold.
    destruct (result (scan _ _ _ _ _ _ _)) as [e | [d search]]; reflexivity.
Qed.

Lemma scan_hit ps c s :
  np_all_nonneg (c.*2) = true ->
  scan svc term db sleep ps c s = Run (inr (frame_of c, None)) s [].
Proof. intros H. unfold scan. rewrite H. reflexivity. Qed.

Lemma scan_files ps c s : files (final (scan svc term db sleep ps c s)) = files s.
Proof.
  unfold scan. destruct (negb _); [apply loop_files | reflexivity].
Qed.

Lemma scan_throttled ps c s : throttled sleep (events (scan svc term db sleep ps c s)).
Proof.
  unfold scan. destruct (negb _); [apply loop_throttled | constructor].
Qed.

Lemma scan_exn ps c s e :
  result (scan svc term db sleep ps c s) = inl e ->
  (exists j, e = KeyError j) \/ e = ValueError \/ e = ServiceError.
Proof.
  unfold scan. destruct (negb _); [apply loop_exn | discriminate].
Qed.

Lemma scan_wf ps c s d search :
  result (scan svc term db sleep ps c s) = inr (d, search) -> wf_frame d.
Proof.
  unfold scan. destruct (negb _).
  - apply loop_wf, wf_frame_of.
  - intros H. injection H as <- <-. apply wf_frame_of.
Qed.

Lemma scan_service_error ps c s :
  result (scan svc term db sleep ps c s) = inl ServiceError ->
  exists j p dt cnt,
    ps !! j = Some p /\ c !! j = Some (dt, cnt) /\ resolved cnt = false /\
    last (events (scan svc term db sleep ps c s))
      = Some (Ev_query (query_of term db p) None).
Proof.
  unfold scan. destruct (negb _); [| discriminate].
  intros H. destruct (loop_service_error _ _ _ _ _ _ _ _ _ H)
    as (j & p & cnt & Hj & Hc & Hr & Hl).
  cbn in Hc. apply list_lookup_fmap_Some in Hc as ([dt cnt'] & Heq & Hcj).
  cbn in Heq. subst cnt'. exists j, p, dt, cnt. auto.
Qed.

Lemma scan_spec ps c s :
  responsive svc ->
  Forall (fun p => period_valid p = true) (pending (c.*2) ps) ->
  exists rs,
    length rs = length (pending (c.*2) ps) /\
    events (scan svc term db sleep ps c s)
      = loop_events term db sleep (pending (c.*2) ps) rs /\
    result (scan svc term db sleep ps c s)
      = if decide ((length ps <= length c)%nat \/ np_all_nonneg (c.*2) = true)
        then inr (Frame (fill_dates (CStr <$> c.*1) (c.*2) ps)
                        (fill_counts (c.*2) ps rs), last rs)
        else inl (KeyError (length c)).
Proof.
  intros Hsvc Hval. destruct (np_all_nonneg (c.*2)) eqn:Hall.
  - exists []. rewrite scan_hit by assumption.
    rewrite pending_all_resolved, fill_counts_all_resolved,
      fill_dates_all_resolved by assumption.
    rewrite decide_True by auto. auto.
  - destruct (loop_spec svc term db sleep ps [] [] (CStr <$> c.*1) (c.*2) None s
                Hsvc Hval eq_refl) as (rs & Hrs & Hev & Hr).
    { rewrite !length_fmap. reflexivity. }
    exists rs. unfold scan. rewrite Hall. cbn [negb].
    cbn [app length] in Hev, Hr. unfold frame_of.
    split; [exact Hrs |]. split; [exact Hev |]. rewrite Hr.
    rewrite length_fmap.
    destruct (decide (length ps <= length c)%nat).
    + rewrite decide_True by auto. destruct (last rs); reflexivity.
    + rewrite decide_False by (intros [? | ?]; [lia | discriminate]).
      reflexivity.
Qed.

End GetDf.

(** ** The cache file across calls *)

Lemma np_all_nonneg_Forall cs :
  np_all_nonneg cs = true <-> Forall (fun c => 0 <= c) cs.
Proof.
  unfold np_all_nonneg. rewrite forallb_forall, Forall_forall.
  split; intros H x Hx.
  - apply Z.leb_le, H, list_elem_of_In, Hx.
  - apply Z.leb_le, H, list_elem_of_In, Hx.
Qed.

Section Cache.
Context {world : Type}.
Variables term db : string.

Lemma stale_hit (s : state world) c :
  files s !! cache_file_name term db = Some c -> stale s term db false = false.
Proof.
  intros H. unfold stale. rewrite bool_decide_eq_true_2 by eauto. reflexivity.
Qed.

Lemma loaded_hit (s : state world) c n :
  files s !! cache_file_name term db = Some c -> loaded_csv s term db n false = c.
Proof. intros H. unfold loaded_csv. rewrite H. reflexivity. Qed.

Lemma stale_fresh (s : state world) ow :
  files s !! cache_file_name term db = None \/ ow = true ->
  stale s term db ow = true.
Proof.
  unfold stale. intros [H | ->].
  - rewrite bool_decide_eq_false_2; [reflexivity |].
    rewrite H. intros [? ?]; discriminate.
  - apply orb_true_r.
Qed.

Lemma loaded_fresh (s : state world) ow n :
  files s !! cache_file_name term db = None \/ ow = true ->
  loaded_csv s term db n ow = fresh_csv n.
Proof.
  unfold loaded_csv. intros [H | ->].
  - rewrite H. reflexivity.
  - destruct (files s !! _); reflexivity.
Qed.

End Cache.

Lemma mapM_str_cell l :
  Forall cell_ok l ->
  mapM to_datetime1 (CStr <$> (str_cell <$> l)) = mapM to_datetime1 l.
Proof.
  intros H. apply Forall2_mapM_ext. rewrite <- list_fmap_compose.
  apply Forall2_fmap_l, Forall_Forall2_diag.
  eapply Forall_impl; [exact H |]. intros c Hc. apply to_datetime1_str_cell, Hc.
Qed.

Lemma csv_of_fst d : wf_frame d -> (csv_of d).*1 = str_cell <$> col_date d.
Proof.
  intros [Hlen _]. unfold csv_of. apply fst_zip. rewrite length_fmap. lia.
Qed.

Lemma csv_of_snd d : wf_frame d -> (csv_of d).*2 = col_count d.
Proof.
  intros [Hlen _]. unfold csv_of. apply snd_zip. rewrite length_fmap. lia.
Qed.

(** A full cache hit: nothing but the write of the rows that were read. *)
Lemma get_df_hit {world delay : Type}
    (svc : world -> string -> option response * world)
    (term db : string) (ps : list period) (sleep : delay) (s : state world) c :
  files s !! cache_file_name term db = Some c ->
  np_all_nonneg (c.*2) = true ->
  get_df svc term db ps false sleep s =
    Run (match mapM to_datetime1 (CStr <$> c.*1) with
         | Some ds => inr (Table ds (c.*2))
         | None => inl DatetimeError
         end) s [Ev_to_csv (cache_file_name term db) c].
Proof.
  intros Hf Hnp. rewrite get_df_run.
  unfold start_state, start_events. rewrite (stale_hit _ _ _ _ Hf).
  rewrite (loaded_hit _ _ _ _ _ Hf), scan_hit by assumption.
  cbn [result final events print_events app]. rewrite csv_of_frame_of.
  rewrite insert_id by assumption. destruct s; reflexivity.
Qed.

(** C1: when a first call without overwrite returned a table in which every
    count is resolved, a second call with the same arguments returns the
    same table, makes no network call and no pause, and leaves the files
    and the service as the first call left them. *)
Theorem get_df_idempotent {world delay : Type}
    (svc : world -> string -> option response * world)
    (term db : string) (ps : list period) (sleep : delay)
    (s : state world) (tbl : table) :
  ps <> [] ->
  result (get_df svc term db ps false sleep s) = inr tbl ->
  Forall (fun c => 0 <= c) (t_count tbl) ->
  let s1 := final (get_df svc term db ps false sleep s) in
  let R2 := get_df svc term db ps false sleep s1 in
  result R2 = inr tbl /\ queries (events R2) = [] /\ sleeps (events R2) = [] /\
  final R2 = s1.
Proof.
  intros _ Hres Hall s1 R2. subst R2 s1.
  pose proof (get_df_run svc term db sleep ps false s) as HR1. cbv zeta in HR1.
  destruct (result (scan _ _ _ _ _ _ _)) as [e | [d search]] eqn:Hscan;
    rewrite HR1 in Hres |- *; clear HR1; [discriminate |].
  cbn [result final] in Hres |- *.
  pose proof (scan_wf _ _ _ _ _ _ _ _ _ Hscan) as Hwf.
  destruct (mapM to_datetime1 (col_date d)) as [ds |] eqn:Hds; [| discriminate].
  injection Hres as <-. cbn [t_count] in Hall.
  erewrite get_df_hit.
  2:{ cbn [files]. apply lookup_insert_eq. }
  2:{ rewrite csv_of_snd by assumption. apply np_all_nonneg_Forall, Hall. }
  rewrite csv_of_fst, csv_of_snd, mapM_str_cell, Hds by (assumption || apply Hwf).
  cbn. auto.
Qed.

(** ** Throttling and failure *)

Section Throttle.
Context {delay : Type}.
Variable sleep : delay.

Lemma quiet_throttled (A : list (event delay)) :
  Forall quiet A -> throttled sleep A.
Proof. induction 1; constructor; assumption. Qed.

Lemma throttled_app_quiet evs (B : list (event delay)) :
  throttled sleep evs -> Forall quiet B -> throttled sleep (evs ++ B).
Proof.
  intros H HB. induction H; cbn.
  - apply quiet_throttled, HB.
  - apply throttled_quiet; assumption.
  - apply throttled_last, Forall_app; auto.
  - apply throttled_step. assumption.
Qed.

Lemma quiet_app_throttled (A : list (event delay)) evs :
  Forall quiet A -> throttled sleep evs -> throttled sleep (A ++ evs).
Proof.
  intros HA H. induction HA; cbn; [exact H |].
  apply throttled_quiet; assumption.
Qed.

Lemma quiet_no_query (evs : list (event delay)) q a :
  Forall quiet evs -> Ev_query q a ∈ evs -> False.
Proof.
  intros H Hin. rewrite Forall_forall in H. destruct (H _ Hin) as [Hq _].
  discriminate.
Qed.

(** In a throttled run a sleep of the requested length lies between any
    two network calls. *)
Lemma throttled_gap evs :
  throttled sleep evs ->
  forall pre q1 a1 mid q2 a2 post,
    evs = pre ++ Ev_query q1 a1 :: mid ++ Ev_query q2 a2 :: post ->
    Ev_sleep sleep ∈ mid.
Proof.
  induction 1 as [| e evs He H IH | q a evs Hq | q a evs H IH];
    intros pre q1 a1 mid q2 a2 post Heq.
  - destruct pre; discriminate.
  - destruct pre as [| e' pre]; cbn in Heq; injection Heq as -> Heq.
    + destruct He. discriminate.
    + eapply IH, Heq.
  - exfalso. destruct pre as [| e' pre]; cbn in Heq.
    + injection Heq as _ _ Heq.
      apply (quiet_no_query evs q2 a2 Hq). subst evs. set_solver.
    + injection Heq as _ Heq.
      apply (quiet_no_query evs q1 a1 Hq). subst evs. set_solver.
  - destruct pre as [| e' pre]; cbn in Heq.
    + injection Heq as _ _ Heq.
      destruct mid as [| e mid]; cbn in Heq; [discriminate |].
      injection Heq as <- Heq. set_solver.
    + injection Heq as _ Heq.
      destruct pre as [| e pre]; cbn in Heq; [discriminate |].
      injection Heq as _ Heq. eapply IH, Heq.
Qed.

Lemma throttled_no_query_no_sleep evs :
  throttled sleep evs -> queries evs = [] -> sleeps evs = [].
Proof.
  induction 1 as [| e evs [Hq Hs] H IH | q a evs Hq | q a evs H IH]; cbn.
  - reflexivity.
  - destruct e; try discriminate; cbn; auto.
  - discriminate.
  - discriminate.
Qed.

End Throttle.

Section Run.
Context {world delay : Type}.
Variable svc : world -> string -> option response * world.
Variables term db : string.
Variable sleep : delay.

Lemma start_events_quiet (s : state world) n ow :
  Forall quiet (start_events (delay:=delay) s term db n ow).
Proof.
  unfold start_events. destruct (stale _ _ _ _); repeat constructor.
Qed.

Lemma print_events_quiet search : Forall quiet (print_events (delay:=delay) search).
Proof. destruct search; repeat constructor. Qed.

Lemma get_df_throttled ps ow s :
  throttled sleep (events (get_df svc term db ps ow sleep s)).
Proof.
  rewrite get_df_run.
  destruct (result (scan _ _ _ _ _ _ _)) as [e | [d search]]; cbn [events].
  - apply quiet_app_throttled; [apply start_events_quiet | apply scan_throttled].
  - apply quiet_app_throttled; [apply start_events_quiet |].
    apply throttled_app_quiet; [apply scan_throttled |].
    apply Forall_app. split; [apply print_events_quiet | repeat constructor].
Qed.

Lemma start_state_loaded (s : state world) n ow :
  files (start_state s term db n ow) !! cache_file_name term db
    = Some (loaded_csv s term db n ow).
Proof.
  unfold start_state, stale, loaded_csv.
  destruct (files s !! cache_file_name term db) as [c |] eqn:Hf.
  - rewrite bool_decide_eq_true_2 by eauto. destruct ow; cbn.
    + apply lookup_insert_eq.
    + exact Hf.
  - rewrite bool_decide_eq_false_2 by (intros [? ?]; discriminate). cbn.
    apply lookup_insert_eq.
Qed.

Lemma start_state_other (s : state world) n ow g :
  g <> cache_file_name term db ->
  files (start_state s term db n ow) !! g = files s !! g.
Proof.
  intros Hg. unfold start_state. destruct (stale _ _ _ _); [| reflexivity].
  cbn. apply lookup_insert_ne. congruence.
Qed.

End Run.

(** C9: in the events of any call, a [time.sleep] of the requested length
    lies between any two network calls, and a call without network calls
    does not sleep at all. *)
Theorem get_df_delay_between_queries {world delay : Type}
    (svc : world -> string -> option response * world)
    (term db : string) (ps : list period) (ow : bool) (sleep : delay)
    (s : state world) :
  let evs := events (get_df svc term db ps ow sleep s) in
  (forall pre q1 a1 mid q2 a2 post,
      evs = pre ++ Ev_query q1 a1 :: mid ++ Ev_query q2 a2 :: post ->
      Ev_sleep sleep ∈ mid) /\
  (queries evs = [] -> sleeps evs = []).
Proof.
  intros evs. subst evs. split.
  - apply throttled_gap, get_df_throttled.
  - apply throttled_no_query_no_sleep with (sleep := sleep), get_df_throttled.
Qed.

(** C6 as the code has it: when a query fails, the exception leaves
    [get_df] before the cache is written back.  The cache file then holds
    the rows it held when the loop started, so nothing resolved during the
    run is kept; the failing record is still pending there, and no other
    file is touched. *)
Theorem get_df_query_failure {world delay : Type}
    (svc : world -> string -> option response * world)
    (term db : string) (ps : list period) (ow : bool) (sleep : delay)
    (s : state world) :
  let f := cache_file_name term db in
  let R := get_df svc term db ps ow sleep s in
  let c := loaded_csv s term db (length ps) ow in
  result R = inl ServiceError ->
  files (final R) !! f = Some c /\
  (forall g, g <> f -> files (final R) !! g = files s !! g) /\
  exists j p dt cnt,
    ps !! j = Some p /\
    last (events R) = Some (Ev_query (query_of term db p) None) /\
    c !! j = Some (dt, cnt) /\ cnt < 0.
Proof.
  intros f R c. subst R. rewrite get_df_run. fold f. fold c.
  destruct (result (scan _ _ _ _ _ _ _)) as [e | [d search]] eqn:Hscan.
  - cbn [result final events]. intros [= ->].
    rewrite scan_files. split; [apply start_state_loaded |].
    split; [intros g Hg; apply start_state_other, Hg |].
    destruct (scan_service_error _ _ _ _ _ _ _ Hscan)
      as (j & p & dt & cnt & Hj & Hc & Hr & Hl).
    exists j, p, dt, cnt. split; [exact Hj |]. split.
    + rewrite last_app, Hl. reflexivity.
    + split; [exact Hc |]. unfold resolved in Hr. lia.
  - cbn [result]. destruct (mapM _ _); discriminate.
Qed.

(** A run on an empty disk whose second query fails: the first period was
    answered, yet the cache file does not hold that answer afterwards. *)
Lemma flaky_run_loses_answer :
  let R := get_df Demo.svc_flaky "python" "astronomy" Demo.two false 100
                  Demo.empty_disk in
  result R = inl ServiceError /\
  ~ answers_persisted "python" "astronomy" Demo.two R.
Proof.
  split; [vm_compute; reflexivity |].
  intros H.
  destruct (H 0%nat (1991, 2) (Response 10 "4999") eq_refl)
    as (rows & dt & Hrows & Hj).
  - vm_compute. apply list_elem_of_further, list_elem_of_here.
  - vm_compute in Hrows. injection Hrows as <-. discriminate.
Qed.

(** ** Writing the cache back *)

Section WriteBack.
Context {world delay : Type}.
Variable svc : world -> string -> option response * world.
Variables term db : string.
Variable sleep : delay.

(** The loop never writes a file. *)
Lemma loop_no_write ps : forall i d search s,
  writes (events (loop svc term db sleep i ps d search s)) = [].
Proof.
  induction ps as [| p rest IH]; intros i d search s; [reflexivity |].
  destruct (col_count d !! i) as [c |] eqn:Hlk.
  2:{ rewrite loop_key_error by exact Hlk. reflexivity. }
  destruct (resolved c) eqn:Hres.
  { rewrite (loop_skip _ _ _ _ _ _ _ _ _ _ c Hlk Hres). apply IH. }
  destruct (svc (ads s) (query_of term db p)) as [[r |] w] eqn:Hq.
  2:{ rewrite (loop_query_fails _ _ _ _ _ _ _ _ _ _ c w Hlk Hres Hq). reflexivity. }
  destruct (period_valid p) eqn:Hp.
  - rewrite (loop_fetch _ _ _ _ _ _ _ _ _ _ c r w Hlk Hres Hq Hp). cbn. apply IH.
  - rewrite (loop_bad_period _ _ _ _ _ _ _ _ _ _ c r w Hlk Hres Hq Hp). reflexivity.
Qed.

Lemma scan_no_write ps c s :
  writes (events (scan svc term db sleep ps c s)) = [].
Proof. unfold scan. destruct (negb _); [apply loop_no_write | reflexivity]. Qed.

Lemma writes_app (a b : list (event delay)) : writes (a ++ b) = writes a ++ writes b.
Proof. apply omap_app. Qed.

(** The only write before the loop is the creation of the cache. *)
Lemma writes_start_events (s : state world) n ow :
  writes (start_events (delay:=delay) s term db n ow)
    = if stale s term db ow then [(cache_file_name term db, fresh_csv n)] else [].
Proof. unfold start_events. destruct (stale _ _ _); reflexivity. Qed.

Lemma ads_start_state (s : state world) n ow :
  ads (start_state s term db n ow) = ads s.
Proof. unfold start_state. destruct (stale _ _ _); reflexivity. Qed.

(** When the query for the first pending period fails, the loop ends there:
    the records before it are resolved and skipped. *)
Lemma loop_first_pending_fails ps : forall i d search s p rest w,
  pending (drop i (col_count d)) ps = p :: rest ->
  svc (ads s) (query_of term db p) = (None, w) ->
  loop svc term db sleep i ps d search s
    = Run (inl ServiceError) (State (files s) w)
          [Ev_query (query_of term db p) None].
Proof.
  induction ps as [| q ps' IH]; intros i d search s p rest w Hp Hq.
  - destruct (drop i (col_count d)); discriminate.
  - destruct (drop i (col_count d)) as [| c cs] eqn:Hd; [discriminate |].
    assert (Hlk : col_count d !! i = Some c).
    { rewrite <- (Nat.add_0_r i), <- lookup_drop, Hd. reflexivity. }
    assert (Hcs : drop (S i) (col_count d) = cs).
    { rewrite (drop_S _ _ _ Hlk) in Hd. congruence. }
    cbn [pending] in Hp. destruct (resolved c) eqn:Hres.
    + rewrite (loop_skip _ _ _ _ _ _ _ _ _ _ c Hlk Hres).
      apply (IH _ _ _ _ _ rest); [rewrite Hcs; exact Hp | exact Hq].
    + injection Hp as -> _.
      apply (loop_query_fails _ _ _ _ _ _ _ _ _ _ c w Hlk Hres Hq).
Qed.

Lemma scan_first_pending_fails ps c s p rest w :
  pending (c.*2) ps = p :: rest ->
  svc (ads s) (query_of term db p) = (None, w) ->
  scan svc term db sleep ps c s
    = Run (inl ServiceError) (State (files s) w)
          [Ev_query (query_of term db p) None].
Proof.
  intros Hp Hq. unfold scan.
  destruct (np_all_nonneg (c.*2)) eqn:Hnp.
  - rewrite (pending_all_resolved _ ps Hnp) in Hp. discriminate.
  - cbn [negb]. apply (loop_first_pending_fails ps 0 (frame_of c) None s p rest w).
    + exact Hp.
    + exact Hq.
Qed.

End WriteBack.

(** C10 as the code has it: the write-back is the statement after the loop,
    so a call performs it exactly when its loop runs to completion.  A call
    that returns a table, or fails only in the final conversion of the
    dates, writes the cache file as its last action, after the creation of
    the cache if there was one.  A call ended by an exception inside the
    loop performs no write-back: its only write is the creation of the
    cache, if any, and the file holds the rows that were loaded; this is so
    whenever the query for the first pending period fails.  On a full cache
    hit (the file exists, no overwrite, every count resolved) the write-back
    is the only event of the call, it writes the rows that were loaded, and
    the state is left as it was. *)
Theorem get_df_rewrites_cache {world delay : Type}
    (svc : world -> string -> option response * world)
    (term db : string) (ps : list period) (ow : bool) (sleep : delay)
    (s : state world) :
  let f := cache_file_name term db in
  let R := get_df svc term db ps ow sleep s in
  let c0 := loaded_csv s term db (length ps) ow in
  let created := if stale s term db ow then [(f, fresh_csv (length ps))] else [] in
  ((exists tbl, result R = inr tbl) \/ result R = inl DatetimeError ->
   exists c, writes (events R) = created ++ [(f, c)] /\
             last (events R) = Some (Ev_to_csv f c) /\
             files (final R) !! f = Some c) /\
  (forall e, result R = inl e -> e <> DatetimeError ->
             writes (events R) = created /\ files (final R) !! f = Some c0) /\
  (forall c, ow = false -> files s !! f = Some c ->
             Forall (fun row => 0 <= row.2) c ->
             events R = [Ev_to_csv f c] /\ final R = s /\ queries (events R) = []) /\
  (forall p rest w,
      pending (c0.*2) ps = p :: rest ->
      svc (ads s) (query_of term db p) = (None, w) ->
      result R = inl ServiceError /\ writes (events R) = created /\
      files (final R) !! f = Some c0).
Proof.
  intros f R c0 created. subst R.
  pose proof (get_df_run svc term db sleep ps ow s) as HR. cbv zeta in HR.
  fold f in HR. fold c0 in HR.
  assert (Hexn : forall e,
    result (scan svc term db sleep ps c0 (start_state s term db (length ps) ow))
      = inl e ->
    result (get_df svc term db ps ow sleep s) = inl e /\
    writes (events (get_df svc term db ps ow sleep s)) = created /\
    files (final (get_df svc term db ps ow sleep s)) !! f = Some c0).
  { intros e He. rewrite HR, He. cbn [result final events].
    split; [reflexivity |]. split.
    - rewrite writes_app, writes_start_events, scan_no_write. apply app_nil_r.
    - rewrite scan_files. apply start_state_loaded. }
  assert (Hok : forall d search,
    result (scan svc term db sleep ps c0 (start_state s term db (length ps) ow))
      = inr (d, search) ->
    ((exists tbl, result (get_df svc term db ps ow sleep s) = inr tbl) \/
     result (get_df svc term db ps ow sleep s) = inl DatetimeError) /\
    exists c,
      writes (events (get_df svc term db ps ow sleep s)) = created ++ [(f, c)] /\
      last (events (get_df svc term db ps ow sleep s)) = Some (Ev_to_csv f c) /\
      files (final (get_df svc term db ps ow sleep s)) !! f = Some c).
  { intros d search He. rewrite HR, He. cbn [result final events]. split.
    - destruct (mapM to_datetime1 (col_date d)); [left; eauto | right; reflexivity].
    - exists (csv_of d). split; [| split].
      + rewrite !writes_app, writes_start_events, scan_no_write.
        destruct search; reflexivity.
      + rewrite !app_assoc. apply last_snoc.
      + apply lookup_insert_eq. }
  clear HR. split; [| split; [| split]].
  - intros Hres.
    destruct (result (scan svc term db sleep ps c0 _)) as [e | [d search]] eqn:Hscan.
    + destruct (Hexn e eq_refl) as (Hr & _). apply scan_exn in Hscan.
      rewrite Hr in Hres. destruct Hres as [[tbl Ht] | He]; [discriminate |].
      injection He as ->. destruct Hscan as [[j ?] | [? | ?]]; discriminate.
    + apply (Hok d search eq_refl).
  - intros e He Hne.
    destruct (result (scan svc term db sleep ps c0 _)) as [e' | [d search]] eqn:Hscan.
    + destruct (Hexn e' eq_refl) as (_ & Hw & Hf). split; assumption.
    + destruct (Hok d search eq_refl) as ([[tbl Ht] | Hd] & _); congruence.
  - intros c -> Hf Hall.
    assert (Hnp : np_all_nonneg (c.*2) = true).
    { apply np_all_nonneg_Forall, Forall_fmap. exact Hall. }
    rewrite (get_df_hit _ _ _ _ _ _ _ Hf Hnp). cbn. auto.
  - intros p rest w Hp Hq. apply Hexn.
    rewrite (scan_first_pending_fails svc term db sleep ps c0 _ p rest w Hp).
    + reflexivity.
    + rewrite ads_start_state. exact Hq.
Qed.

(** A call on a stored cache with one pending record while the service is
    down: it ends in the exception of the query and has written no file. *)
Lemma failed_call_writes_nothing :
  let R := get_df Demo.svc_down "python" "astronomy" Demo.three false 100
                  Demo.one_pending in
  result R = inl ServiceError /\
  ~ rewrites_cache "python" "astronomy" R /\
  files (final R) = files Demo.one_pending.
Proof.
  assert (He : events (get_df Demo.svc_down "python" "astronomy" Demo.three false
                         100 Demo.one_pending)
               = [Ev_query (query_of "python" "astronomy" (1991, 3)) None]).
  { vm_compute. reflexivity. }
  split; [vm_compute; reflexivity |]. split; [| vm_compute; reflexivity].
  intros [c Hc]. rewrite He in Hc.
  apply list_elem_of_singleton in Hc. discriminate.
Qed.

(** ** The pure description of the loop *)






Lemma pending_fresh ps : pending (replicate (length ps) (-1)) ps = ps.
Proof. induction ps as [| p ps IH]; cbn; [reflexivity | f_equal; exact IH]. Qed.

Lemma fill_counts_fresh ps : forall rs,
  length rs = length ps ->
  fill_counts (replicate (length ps) (-1)) ps rs = (Z.of_nat ∘ nresults) <$> rs.
Proof.
  induction ps as [| p ps IH]; intros [| r rs] Hlen; try discriminate; [reflexivity |].
  injection Hlen as Hlen. cbn. f_equal. apply IH, Hlen.
Qed.

Lemma fill_dates_fresh ps : forall xs,
  length xs = length ps ->
  fill_dates xs (replicate (length ps) (-1)) ps = (CDate ∘ first_of_month) <$> ps.
Proof.
  induction ps as [| p ps IH]; intros [| x xs] Hlen; try discriminate; [reflexivity |].
  injection Hlen as Hlen. cbn. f_equal. apply IH, Hlen.
Qed.


Lemma period_ok_valid ps :
  Forall (fun p => period_ok p = true) ps ->
  Forall (fun p => period_valid p = true) ps.
Proof.
  intros H. eapply Forall_impl; [exact H |]. intros p Hp. unfold period_ok in Hp.
  apply andb_prop in Hp. tauto.
Qed.


(** ** The events of a run *)

Section Events.
Context {delay : Type}.
Variables term db : string.
Variable sleep : delay.


Lemma answers_loop_events ps : forall rs,
  length rs = length ps ->
  answers (loop_events term db sleep ps rs) = rs.
Proof.
  induction ps as [| p ps IH]; intros [| r rs] Hlen; try discriminate; [reflexivity |].
  injection Hlen as Hlen. cbn. f_equal. apply IH, Hlen.
Qed.

Lemma queries_quiet (evs : list (event delay)) :
  Forall quiet evs -> queries evs = [].
Proof.
  induction 1 as [| e evs [Hq _] _ IH]; [reflexivity |].
  destruct e; try discriminate; exact IH.
Qed.

Lemma answers_quiet (evs : list (event delay)) :
  Forall quiet evs -> answers evs = [].
Proof.
  induction 1 as [| e evs [Hq _] _ IH]; [reflexivity |].
  destruct e; try discriminate; exact IH.
Qed.

End Events.

(** ** What a call does when the service answers *)

Lemma get_df_spec {world delay : Type}
    (svc : world -> string -> option response * world)
    (term db : string) (sleep : delay) (ps : list period) (ow : bool)
    (s : state world) :
  let f := cache_file_name term db in
  let n := length ps in
  let c := loaded_csv s term db n ow in
  let R := get_df svc term db ps ow sleep s in
  responsive svc ->
  Forall (fun p => period_valid p = true) (pending (c.*2) ps) ->
  exists rs,
    length rs = length (pending (c.*2) ps) /\
    if decide ((length ps <= length c)%nat \/ np_all_nonneg (c.*2) = true)
    then
      let d := Frame (fill_dates (CStr <$> c.*1) (c.*2) ps)
                     (fill_counts (c.*2) ps rs) in
      result R = match mapM to_datetime1 (col_date d) with
                 | Some ds => inr (Table ds (col_count d))
                 | None => inl DatetimeError
                 end /\
      files (final R) = <[f := csv_of d]> (files (start_state s term db n ow)) /\
      events R = start_events s term db n ow ++
                 loop_events term db sleep (pending (c.*2) ps) rs ++
                 print_events (last rs) ++ [Ev_to_csv f (csv_of d)]
    else
      result R = inl (KeyError (length c)) /\
      files (final R) = files (start_state s term db n ow) /\
      events R = start_events s term db n ow ++
                 loop_events term db sleep (pending (c.*2) ps) rs.
Proof.
  intros f n c R Hsvc Hval. subst R. rewrite get_df_run. fold f n c.
  destruct (scan_spec svc term db sleep ps c (start_state s term db n ow) Hsvc Hval)
    as (rs & Hrs & Hev & Hr).
  pose proof (scan_files svc term db sleep ps c (start_state s term db n ow)) as Hfiles.
  exists rs. split; [exact Hrs |].
  destruct (decide _); rewrite Hr; cbn [result final events files];
    rewrite Hev, Hfiles; auto.
Qed.


(** ** A fresh cache *)

Section RunEvents.
Context {delay : Type}.
Variables term db : string.
Variable sleep : delay.


Lemma answers_run (A B : list (event delay)) ps rs :
  Forall quiet A -> Forall quiet B -> length rs = length ps ->
  answers (A ++ loop_events term db sleep ps rs ++ B) = rs.
Proof.
  intros HA HB Hlen. unfold answers. rewrite !omap_app.
  fold (answers A). fold (answers B).
  fold (answers (loop_events term db sleep ps rs)).
  rewrite (answers_quiet _ HA), (answers_quiet _ HB).
  rewrite answers_loop_events by exact Hlen. cbn. apply app_nil_r.
Qed.

Lemma tail_quiet search f c :
  Forall quiet (print_events (delay:=delay) search ++ [Ev_to_csv f c]).
Proof. apply Forall_app. split; [apply print_events_quiet | repeat constructor]. Qed.

End RunEvents.

Lemma fresh_csv_fst n : (fresh_csv n).*1 = replicate n "1984-01-01"%string.
Proof. unfold fresh_csv. rewrite fmap_replicate. reflexivity. Qed.

Lemma fresh_csv_snd n : (fresh_csv n).*2 = replicate n (-1).
Proof. unfold fresh_csv. rewrite fmap_replicate. reflexivity. Qed.

Lemma mapM_first_of_month ps :
  Forall (fun p => period_ok p = true) ps ->
  mapM to_datetime1 ((CDate ∘ first_of_month) <$> ps) = Some (first_of_month <$> ps).
Proof.
  intros H. rewrite list_fmap_compose. apply mapM_fmap_Forall_Some.
  apply Forall_fmap. eapply Forall_impl; [exact H |]. intros p Hp. cbn.
  unfold period_ok in Hp. apply andb_prop in Hp as [_ Hb].
  unfold to_datetime1. cbn. rewrite Hb. reflexivity.
Qed.

(** What a call on a fresh cache (no file, or overwrite) does when the
    service answers and the calendar accepts every period. *)
Lemma get_df_fresh_run {world delay : Type}
    (svc : world -> string -> option response * world)
    (term db : string) (sleep : delay) (ps : list period) (ow : bool)
    (s : state world) :
  let f := cache_file_name term db in
  let R := get_df svc term db ps ow sleep s in
  files s !! f = None \/ ow = true ->
  responsive svc ->
  Forall (fun p => period_valid p = true) ps ->
  exists rs,
    length rs = length ps /\
    let d := Frame ((CDate ∘ first_of_month) <$> ps) ((Z.of_nat ∘ nresults) <$> rs) in
    result R = match mapM to_datetime1 (col_date d) with
               | Some ds => inr (Table ds (col_count d))
               | None => inl DatetimeError
               end /\
    files (final R) !! f = Some (csv_of d) /\
    events R = [Ev_to_csv f (fresh_csv (length ps))] ++
               loop_events term db sleep ps rs ++
               print_events (last rs) ++ [Ev_to_csv f (csv_of d)].
Proof.
  intros f R Hfresh Hsvc Hps. subst R.
  pose proof (get_df_spec svc term db sleep ps ow s Hsvc) as H. cbv zeta in H.
  rewrite (loaded_fresh _ _ _ _ _ Hfresh) in H.
  rewrite fresh_csv_snd, fresh_csv_fst, pending_fresh in H.
  destruct (H Hps) as (rs & Hrs & H'). clear H.
  rewrite decide_True in H'.
  2:{ left. unfold fresh_csv. rewrite length_replicate. lia. }
  rewrite fill_counts_fresh, fill_dates_fresh in H'
    by (rewrite ?length_fmap, ?length_replicate; auto).
  destruct H' as (Hres & Hfiles & Hev).
  exists rs. split; [exact Hrs |]. cbv zeta. split; [exact Hres |]. split.
  - rewrite Hfiles. apply lookup_insert_eq.
  - rewrite Hev. unfold start_events. rewrite (stale_fresh _ _ _ _ Hfresh).
    reflexivity.
Qed.

(** C3: on a fresh cache (no cache file, or overwrite), with a service that
    answers and periods the date types can hold, the call returns a table
    with one row per period in period order, each date the first day of
    the period's month and each count the non-negative number of results
    the service gave for that period. *)
Theorem get_df_fresh {world delay : Type}
    (svc : world -> string -> option response * world)
    (term db : string) (ps : list period) (ow : bool) (sleep : delay)
    (s : state world) :
  ps <> [] ->
  files s !! cache_file_name term db = None \/ ow = true ->
  responsive svc ->
  Forall (fun p => period_ok p = true) ps ->
  let R := get_df svc term db ps ow sleep s in
  exists tbl,
    result R = inr tbl /\
    t_date tbl = first_of_month <$> ps /\
    length (t_count tbl) = length ps /\
    length (rows tbl) = length ps /\
    Forall (fun c => 0 <= c) (t_count tbl) /\
    t_count tbl = (Z.of_nat ∘ nresults) <$> answers (events R).
Proof.
  intros _ Hfresh Hsvc Hps R. subst R.
  destruct (get_df_fresh_run svc term db sleep ps ow s Hfresh Hsvc
              (period_ok_valid _ Hps)) as (rs & Hrs & Hres & _ & Hev).
  cbn [col_date col_count] in Hres. rewrite mapM_first_of_month in Hres by exact Hps.
  eexists. split; [exact Hres |]. cbn [t_date t_count]. split; [reflexivity |].
  split; [rewrite length_fmap; exact Hrs |]. split.
  - unfold rows. cbn [t_date t_count]. rewrite length_zip_with, !length_fmap. lia.
  - split.
    + apply Forall_fmap, Forall_true. intros r. cbn. lia.
    + rewrite Hev.
      rewrite (answers_run term db sleep [Ev_to_csv _ _] _ ps rs);
        [reflexivity | repeat constructor | apply tail_quiet | exact Hrs].
Qed.


(** ** A cache of the wrong length *)


Lemma start_state_hit {world : Type} (s : state world) term db n c :
  files s !! cache_file_name term db = Some c ->
  start_state s term db n false = s.
Proof. intros H. unfold start_state. rewrite (stale_hit _ _ _ _ H). reflexivity. Qed.



(** ** The theorems at work on sample runs *)

Lemma q_format_shape_witness :
  q_format "python" 1991 2 "astronomy" =
    "full:" +:+ Fmt.dq +:+ "python" +:+ Fmt.dq +:+ "  pubdate:" +:+
    Fmt.fmt_d 1991 +:+ "-" +:+ Fmt.two_digits 2 +:+ " database:" +:+
    Fmt.dq +:+ "astronomy" +:+ Fmt.dq.
Proof. apply (q_format_shape "python" "astronomy" 1991 2). lia. Defined.

Lemma get_df_idempotent_witness :
  let s1 := final (get_df Demo.svc_ok "python" "astronomy" Demo.two false 100
                          Demo.empty_disk) in
  let R2 := get_df Demo.svc_ok "python" "astronomy" Demo.two false 100 s1 in
  result R2 = inr (Table [Date 1991 2 1; Date 1991 3 1] [10; 11]) /\
  queries (events R2) = [] /\ sleeps (events R2) = [] /\ final R2 = s1.
Proof.
  apply (get_df_idempotent Demo.svc_ok "python" "astronomy" Demo.two 100
           Demo.empty_disk).
  - discriminate.
  - vm_compute. reflexivity.
  - repeat (constructor; [lia |]). constructor.
Defined.


Lemma get_df_fresh_witness :
  let R := get_df Demo.svc_ok "python" "astronomy" Demo.two false 100
                  Demo.empty_disk in
  exists tbl,
    result R = inr tbl /\
    t_date tbl = [Date 1991 2 1; Date 1991 3 1] /\
    length (t_count tbl) = 2%nat /\
    length (rows tbl) = 2%nat /\
    Forall (fun c => 0 <= c) (t_count tbl) /\
    t_count tbl = (Z.of_nat ∘ nresults) <$> answers (events R).
Proof.
  apply (get_df_fresh Demo.svc_ok "python" "astronomy" Demo.two false 100
           Demo.empty_disk).
  - discriminate.
  - left. vm_compute. reflexivity.
  - intros w q. eexists. reflexivity.
  - repeat constructor.
Defined.


Lemma get_df_query_failure_witness :
  let f := cache_file_name "python" "astronomy" in
  let R := get_df Demo.svc_flaky "python" "astronomy" Demo.two false 100
                  Demo.empty_disk in
  files (final R) !! f = Some (fresh_csv 2) /\
  (forall g, g <> f -> files (final R) !! g = files Demo.empty_disk !! g) /\
  exists j p dt cnt,
    Demo.two !! j = Some p /\
    last (events R) = Some (Ev_query (query_of "python" "astronomy" p) None) /\
    fresh_csv 2 !! j = Some (dt, cnt) /\ cnt < 0.
Proof.
  apply (get_df_query_failure Demo.svc_flaky "python" "astronomy" Demo.two false
           100 Demo.empty_disk).
  vm_compute. reflexivity.
Defined.


Lemma get_df_delay_between_queries_witness :
  Ev_sleep 100 ∈ [Ev_sleep (delay:=Z) 100] /\
  sleeps (events (get_df Demo.svc_ok "python" "astronomy" Demo.two false 100
                         Demo.three_resolved)) = [].
Proof.
  split.
  - apply (proj1 (get_df_delay_between_queries Demo.svc_ok "python" "astronomy"
                    Demo.two false 100 Demo.empty_disk)
             [Ev_to_csv "python_astronomy.csv" (fresh_csv 2)]
             (query_of "python" "astronomy" (1991, 2)) (Some (Response 10 "4999"))
             [Ev_sleep 100]
             (query_of "python" "astronomy" (1991, 3)) (Some (Response 11 "4999"))
             [Ev_sleep 100; Ev_print "4999 queries remaining";
              Ev_to_csv "python_astronomy.csv"
                [("1991-02-01"%string, 10); ("1991-03-01"%string, 11)]]).
    vm_compute. reflexivity.
  - apply (proj2 (get_df_delay_between_queries Demo.svc_ok "python" "astronomy"
                    Demo.two false 100 Demo.three_resolved)).
    vm_compute. reflexivity.
Defined.

Lemma get_df_rewrites_cache_witness :
  let f := cache_file_name "python" "astronomy" in
  (let R := get_df Demo.svc_ok "python" "astronomy" Demo.three false 100
                   Demo.one_pending in
   exists c, writes (events R) = [(f, c)] /\
             last (events R) = Some (Ev_to_csv f c) /\
             files (final R) !! f = Some c) /\
  (let R := get_df Demo.svc_ok "python" "astronomy" Demo.two false 100
                   Demo.short_pending in
   writes (events R) = [] /\
   files (final R) !! f = Some Demo.rows_short) /\
  (let R := get_df Demo.svc_ok "python" "astronomy" Demo.three false 100
                   Demo.three_resolved in
   events R = [Ev_to_csv f Demo.rows_resolved] /\ final R = Demo.three_resolved /\
   queries (events R) = []) /\
  (let R := get_df Demo.svc_down "python" "astronomy" Demo.three false 100
                   Demo.one_pending in
   result R = inl ServiceError /\ writes (events R) = [] /\
   files (final R) !! f = Some Demo.rows_one_pending).
Proof.
  split; [| split; [| split]].
  - apply (proj1 (get_df_rewrites_cache Demo.svc_ok "python" "astronomy"
                    Demo.three false 100 Demo.one_pending)).
    left. eexists. vm_compute. reflexivity.
  - apply (proj1 (proj2 (get_df_rewrites_cache Demo.svc_ok "python" "astronomy"
                           Demo.two false 100 Demo.short_pending))
             (KeyError 1)).
    + vm_compute. reflexivity.
    + discriminate.
  - apply (proj1 (proj2 (proj2 (get_df_rewrites_cache Demo.svc_ok "python"
                                  "astronomy" Demo.three false 100
                                  Demo.three_resolved)))).
    + reflexivity.
    + vm_compute. reflexivity.
    + repeat (constructor; [cbn; lia |]). constructor.
  - apply (proj2 (proj2 (proj2 (get_df_rewrites_cache Demo.svc_down "python"
                                  "astronomy" Demo.three false 100
                                  Demo.one_pending)))
             (1991, 3) [] 1%nat).
    + vm_compute. reflexivity.
    + reflexivity.
Defined.

(** * Further properties of the code *)

(** ** More on the loop *)

Section LoopRuns.
Context {world delay : Type}.
Variable svc : world -> string -> option response * world.
Variables term db : string.
Variable sleep : delay.

(** One iteration, by cases on the record, the service and the calendar. *)
Ltac iteration i p rest d search s :=
  let c := fresh "c" in let r := fresh "r" in let w := fresh "w" in
  let Hlk := fresh "Hlk" in let Hres := fresh "Hres" in
  let Hq := fresh "Hq" in let Hp := fresh "Hp" in
  destruct (col_count d !! i) as [c |] eqn:Hlk;
  [ destruct (resolved c) eqn:Hres;
    [ rewrite (loop_skip svc term db sleep i p rest d search s c Hlk Hres)
    | destruct (svc (ads s) (query_of term db p)) as [[r |] w] eqn:Hq;
      [ destruct (period_valid p) eqn:Hp;
        [ rewrite (loop_fetch svc term db sleep i p rest d search s c r w Hlk Hres Hq Hp)
        | rewrite (loop_bad_period svc term db sleep i p rest d search s c r w Hlk Hres Hq Hp) ]
      | rewrite (loop_query_fails svc term db sleep i p rest d search s c w Hlk Hres Hq) ] ]
  | rewrite (loop_key_error svc term db sleep i p rest d search s Hlk) ].

(** A completed loop found a record for every period. *)
Lemma loop_ok_range ps : forall i d search s d' search',
  (i <= length (col_count d))%nat ->
  result (loop svc term db sleep i ps d search s) = inr (d', search') ->
  (i + length ps <= length (col_count d))%nat.
Proof.
  induction ps as [| p rest IH]; intros i d search s d' search' Hi; [cbn; lia |].
  iteration i p rest d search s; cbn [result]; intros He; try discriminate.
  - apply lookup_lt_Some in Hlk. apply IH in He; cbn [length]; lia.
  - apply lookup_lt_Some in Hlk.
    apply IH in He; cbn [col_count length] in *; rewrite ?length_insert in *; lia.
Qed.

(** A completed loop leaves both columns at their length. *)
Lemma loop_ok_lengths ps : forall i d search s d' search',
  result (loop svc term db sleep i ps d search s) = inr (d', search') ->
  length (col_count d') = length (col_count d) /\
  length (col_date d') = length (col_date d).
Proof.
  induction ps as [| p rest IH]; intros i d search s d' search'.
  - cbn. intros H. injection H as <- <-. auto.
  - iteration i p rest d search s; cbn [result]; intros He; try discriminate.
    + eapply IH, He.
    + apply IH in He. cbn [col_count col_date] in He.
      rewrite !length_insert in He. exact He.
Qed.

(** A completed loop leaves every resolved record as it was. *)
Lemma loop_ok_kept ps : forall i d search s d' search' j c,
  result (loop svc term db sleep i ps d search s) = inr (d', search') ->
  col_count d !! j = Some c -> resolved c = true ->
  col_count d' !! j = Some c /\ col_date d' !! j = col_date d !! j.
Proof.
  induction ps as [| p rest IH]; intros i d search s d' search' j c.
  - cbn. intros H. injection H as <- <-. auto.
  - iteration i p rest d search s; cbn [result]; intros He Hj Hc; try discriminate.
    + eapply IH; eauto.
    + assert (Hne : i <> j) by (intros ->; congruence).
      destruct (IH _ _ _ _ _ _ j c He) as [H1 H2]; [| exact Hc |].
      * cbn [col_count]. rewrite list_lookup_insert_ne by exact Hne. exact Hj.
      * split; [exact H1 |]. rewrite H2. cbn [col_date].
        apply list_lookup_insert_ne, Hne.
Qed.

(** A completed loop leaves the records outside the period list alone. *)
Lemma loop_ok_outside ps : forall i d search s d' search' j,
  result (loop svc term db sleep i ps d search s) = inr (d', search') ->
  (j < i \/ i + length ps <= j)%nat ->
  col_count d' !! j = col_count d !! j /\ col_date d' !! j = col_date d !! j.
Proof.
  induction ps as [| p rest IH]; intros i d search s d' search' j.
  - cbn. intros H. injection H as <- <-. auto.
  - iteration i p rest d search s; cbn [result length]; intros He Hj; try discriminate.
    + eapply IH; [exact He | lia].
    + destruct (IH _ _ _ _ _ _ j He) as [H1 H2]; [lia |].
      rewrite H1, H2. cbn [col_count col_date].
      rewrite !list_lookup_insert_ne by lia. auto.
Qed.

(** After a completed loop every record of the period list is resolved. *)
Lemma loop_ok_resolved ps : forall i d search s d' search' j,
  result (loop svc term db sleep i ps d search s) = inr (d', search') ->
  (i <= j < i + length ps)%nat ->
  exists c, col_count d' !! j = Some c /\ resolved c = true.
Proof.
  induction ps as [| p rest IH]; intros i d search s d' search' j.
  - cbn. lia.
  - iteration i p rest d search s; cbn [result length]; intros He Hj; try discriminate.
    + destruct (decide (j = i)) as [-> | Hne].
      * exists c. split; [| exact Hres].
        eapply loop_ok_kept; eauto.
      * eapply IH; [exact He | lia].
    + destruct (decide (j = i)) as [-> | Hne].
      * exists (Z.of_nat (nresults r)).
        assert (Hr : resolved (Z.of_nat (nresults r)) = true)
          by (unfold resolved; apply Z.leb_le; lia).
        split; [| exact Hr].
        eapply loop_ok_kept; [exact He | | exact Hr].
        cbn [col_count]. apply list_lookup_insert_eq.
        eapply lookup_lt_Some, Hlk.
      * eapply IH; [exact He | lia].
Qed.

(** Whatever the outcome, the queries sent are the first ones of the
    pending periods, in order. *)
Lemma loop_queries_prefix ps : forall i d search s,
  queries (events (loop svc term db sleep i ps d search s))
    `prefix_of` query_of term db <$> pending (drop i (col_count d)) ps.
Proof.
  induction ps as [| p rest IH]; intros i d search s.
  - apply prefix_nil.
  - iteration i p rest d search s; cbn [events];
      try (rewrite (drop_S _ _ _ Hlk); cbn [pending]; rewrite Hres).
    + apply IH.
    + cbn. apply prefix_cons.
      specialize (IH (S i) (Frame (<[i:=CDate (first_of_month p)]> (col_date d))
                                  (<[i:=Z.of_nat (nresults r)]> (col_count d)))
                     (Some r) (State (files s) w)).
      cbn [col_count] in IH. rewrite drop_insert_lt in IH by lia. exact IH.
    + cbn. apply prefix_cons, prefix_nil.
    + cbn. apply prefix_cons, prefix_nil.
    + apply prefix_nil.
Qed.

(** A KeyError names the first position the cache lacks. *)
Lemma loop_key_error_inv ps : forall i d search s k,
  (i <= length (col_count d))%nat ->
  result (loop svc term db sleep i ps d search s) = inl (KeyError k) ->
  k = length (col_count d) /\ (k < i + length ps)%nat.
Proof.
  induction ps as [| p rest IH]; intros i d search s k Hi; [discriminate |].
  iteration i p rest d search s; cbn [result length]; intros He; try discriminate.
  - apply lookup_lt_Some in Hlk. apply IH in He; lia.
  - apply lookup_lt_Some in Hlk. apply IH in He; cbn [col_count] in *;
      rewrite ?length_insert in *; lia.
  - injection He as <-. apply lookup_ge_None in Hlk. lia.
Qed.

(** A ValueError follows an answered query for a period the calendar
    rejects. *)
Lemma loop_value_error_inv ps : forall i d search s,
  result (loop svc term db sleep i ps d search s) = inl ValueError ->
  exists p r,
    p ∈ ps /\ period_valid p = false /\
    last (events (loop svc term db sleep i ps d search s))
      = Some (Ev_query (query_of term db p) (Some r)).
Proof.
  induction ps as [| p rest IH]; intros i d search s; [discriminate |].
  iteration i p rest d search s; cbn [result events]; intros He; try discriminate.
  - destruct (IH _ _ _ _ He) as (q & r' & Hin & Hq' & Hl).
    exists q, r'. split; [apply list_elem_of_further, Hin | auto].
  - destruct (IH _ _ _ _ He) as (q & r' & Hin & Hq' & Hl).
    exists q, r'. split; [apply list_elem_of_further, Hin |].
    split; [exact Hq' |]. rewrite !last_cons, Hl. reflexivity.
  - exists p, r. split; [apply list_elem_of_here | auto].
Qed.

(** The variable [search] after a completed loop: the last answer of the
    loop, or what it held before when no query was sent. *)
Lemma loop_ok_search ps : forall i d search s d' search',
  result (loop svc term db sleep i ps d search s) = inr (d', search') ->
  search' = from_option Some search
              (last (answers (events (loop svc term db sleep i ps d search s)))).
Proof.
  induction ps as [| p rest IH]; intros i d search s d' search'.
  - cbn. intros H. injection H as _ <-. reflexivity.
  - iteration i p rest d search s; cbn [result events]; intros He; try discriminate.
    + eapply IH, He.
    + apply IH in He. subst search'.
      change (answers (Ev_query (query_of term db p) (Some r) :: Ev_sleep sleep :: ?e))
        with (r :: answers e).
      rewrite last_cons. destruct (last (answers _)); reflexivity.
Qed.

(** Every sleep has the requested length and follows an answered query;
    a completed loop sleeps once per query. *)
Lemma loop_sleeps ps : forall i d search s,
  let L := loop svc term db sleep i ps d search s in
  sleeps (events L) = replicate (length (sleeps (events L))) sleep /\
  (length (sleeps (events L)) <= length (answers (events L)))%nat /\
  (forall x, result L = inr x ->
             length (sleeps (events L)) = length (queries (events L))).
Proof.
  induction ps as [| p rest IH]; intros i d search s L; subst L.
  - cbn. auto.
  - iteration i p rest d search s; cbn [result events].
    + apply IH.
    + specialize (IH (S i) (Frame (<[i:=CDate (first_of_month p)]> (col_date d))
                                  (<[i:=Z.of_nat (nresults r)]> (col_count d)))
                     (Some r) (State (files s) w)).
      cbv zeta in IH. destruct IH as (H1 & H2 & H3).
      change (sleeps (Ev_query (query_of term db p) (Some r) :: Ev_sleep sleep :: ?e))
        with (sleep :: sleeps e).
      change (answers (Ev_query (query_of term db p) (Some r) :: Ev_sleep sleep :: ?e))
        with (r :: answers e).
      change (queries (Ev_query (query_of term db p) (Some r) :: Ev_sleep sleep :: ?e))
        with (query_of term db p :: queries e).
      cbn [length replicate].
      split; [f_equal; exact H1 |]. split; [lia |].
      intros x Hx. f_equal. eapply H3, Hx.
    + cbn. split; [reflexivity |]. split; [lia | discriminate].
    + cbn. split; [reflexivity |]. split; [lia | discriminate].
    + cbn. split; [reflexivity |]. split; [lia | discriminate].
Qed.

End LoopRuns.

(** ** More on the guarded loop *)

Section ScanRuns.
Context {world delay : Type}.
Variable svc : world -> string -> option response * world.
Variables term db : string.
Variable sleep : delay.

Lemma loop_no_print ps : forall i d search s,
  prints (events (loop svc term db sleep i ps d search s)) = [].
Proof.
  induction ps as [| p rest IH]; intros i d search s; [reflexivity |].
  destruct (col_count d !! i) as [c |] eqn:Hlk.
  2:{ rewrite loop_key_error by exact Hlk. reflexivity. }
  destruct (resolved c) eqn:Hres.
  { rewrite (loop_skip _ _ _ _ _ _ _ _ _ _ c Hlk Hres). apply IH. }
  destruct (svc (ads s) (query_of term db p)) as [[r |] w] eqn:Hq.
  2:{ rewrite (loop_query_fails _ _ _ _ _ _ _ _ _ _ c w Hlk Hres Hq). reflexivity. }
  destruct (period_valid p) eqn:Hp.
  - rewrite (loop_fetch _ _ _ _ _ _ _ _ _ _ c r w Hlk Hres Hq Hp). cbn. apply IH.
  - rewrite (loop_bad_period _ _ _ _ _ _ _ _ _ _ c r w Hlk Hres Hq Hp). reflexivity.
Qed.

(** A loop over records that are all resolved does nothing. *)
Lemma loop_all_skip ps : forall i d search s,
  (forall j, (i <= j < i + length ps)%nat ->
             exists c, col_count d !! j = Some c /\ resolved c = true) ->
  loop svc term db sleep i ps d search s = Run (inr (d, search)) s [].
Proof.
  induction ps as [| p rest IH]; intros i d search s H; [reflexivity |].
  destruct (H i) as (c & Hlk & Hres); [cbn; lia |].
  rewrite (loop_skip _ _ _ _ _ _ _ _ _ _ c Hlk Hres). apply IH.
  intros j Hj. apply H. cbn. lia.
Qed.

Lemma frame_of_count_lookup (c : csv) j dt cnt :
  c !! j = Some (dt, cnt) ->
  col_count (frame_of c) !! j = Some cnt /\
  col_date (frame_of c) !! j = Some (CStr dt).
Proof.
  intros H. cbn. split.
  - apply list_lookup_fmap_Some. exists (dt, cnt). auto.
  - apply list_lookup_fmap_Some. exists dt. split; [reflexivity |].
    apply list_lookup_fmap_Some. exists (dt, cnt). auto.
Qed.

Lemma scan_ok_lengths ps c s d search :
  result (scan svc term db sleep ps c s) = inr (d, search) ->
  length (col_count d) = length c /\ length (col_date d) = length c.
Proof.
  unfold scan. destruct (negb _).
  - intros H. apply loop_ok_lengths in H. cbn in H. rewrite !length_fmap in H.
    exact H.
  - intros H. injection H as <- <-. cbn. rewrite !length_fmap. auto.
Qed.

Lemma scan_ok_kept ps c s d search j dt cnt :
  result (scan svc term db sleep ps c s) = inr (d, search) ->
  c !! j = Some (dt, cnt) -> 0 <= cnt ->
  col_count d !! j = Some cnt /\ col_date d !! j = Some (CStr dt).
Proof.
  intros H Hj Hcnt. destruct (frame_of_count_lookup c j dt cnt Hj) as [H1 H2].
  unfold scan in H. destruct (negb _).
  - destruct (loop_ok_kept _ _ _ _ _ _ _ _ _ _ _ j cnt H H1) as [H3 H4].
    + unfold resolved. apply Z.leb_le, Hcnt.
    + split; [exact H3 |]. rewrite H4. exact H2.
  - injection H as <- <-. auto.
Qed.

(** After a completed scan either every record is resolved or the loop
    ran, and then every record of the period list exists and is resolved. *)
Lemma scan_ok_resolved ps c s d search :
  result (scan svc term db sleep ps c s) = inr (d, search) ->
  forall j x, (j < length ps)%nat -> col_count d !! j = Some x -> 0 <= x.
Proof.
  unfold scan. destruct (negb _) eqn:Hnp.
  - intros H j x Hj Hx.
    destruct (loop_ok_resolved _ _ _ _ _ _ _ _ _ _ _ j H) as (y & Hy & Hr); [lia |].
    rewrite Hx in Hy. injection Hy as <-. unfold resolved in Hr. lia.
  - intros H j x _ Hx. injection H as <- <-.
    apply negb_false_iff in Hnp. unfold np_all_nonneg in Hnp.
    rewrite forallb_forall in Hnp. apply Z.leb_le, Hnp, list_elem_of_In.
    eapply list_elem_of_lookup_2, Hx.
Qed.

Lemma scan_ok_skippable ps c s d search :
  result (scan svc term db sleep ps c s) = inr (d, search) ->
  np_all_nonneg (col_count d) = true \/
  (forall j, (j < length ps)%nat ->
             exists x, col_count d !! j = Some x /\ resolved x = true).
Proof.
  unfold scan. destruct (negb _) eqn:Hnp.
  - intros H. right. intros j Hj.
    apply (loop_ok_resolved _ _ _ _ _ _ _ _ _ _ _ j H). lia.
  - intros H. injection H as <- <-. left.
    apply negb_false_iff in Hnp. exact Hnp.
Qed.

Lemma scan_ok_search ps c s d search :
  result (scan svc term db sleep ps c s) = inr (d, search) ->
  search = last (answers (events (scan svc term db sleep ps c s))).
Proof.
  unfold scan. destruct (negb _).
  - intros H. apply loop_ok_search in H. rewrite H.
    destruct (last _); reflexivity.
  - intros H. injection H as _ <-. reflexivity.
Qed.

Lemma scan_no_print ps c s :
  prints (events (scan svc term db sleep ps c s)) = [].
Proof. unfold scan. destruct (negb _); [apply loop_no_print | reflexivity]. Qed.

Lemma scan_queries_prefix ps c s :
  queries (events (scan svc term db sleep ps c s))
    `prefix_of` query_of term db <$> pending (c.*2) ps.
Proof.
  unfold scan. destruct (negb _).
  - apply (loop_queries_prefix svc term db sleep ps 0 (frame_of c) None s).
  - apply prefix_nil.
Qed.

Lemma scan_key_error ps c s k :
  result (scan svc term db sleep ps c s) = inl (KeyError k) ->
  k = length c /\ (k < length ps)%nat.
Proof.
  unfold scan. destruct (negb _); [| discriminate].
  intros H. apply loop_key_error_inv in H; [| lia].
  cbn in H. rewrite length_fmap in H. exact H.
Qed.

Lemma scan_value_error ps c s :
  result (scan svc term db sleep ps c s) = inl ValueError ->
  exists p r,
    p ∈ ps /\ period_valid p = false /\
    last (events (scan svc term db sleep ps c s))
      = Some (Ev_query (query_of term db p) (Some r)).
Proof.
  unfold scan. destruct (negb _); [apply loop_value_error_inv | discriminate].
Qed.

Lemma scan_sleeps ps c s :
  let L := scan svc term db sleep ps c s in
  sleeps (events L) = replicate (length (sleeps (events L))) sleep /\
  (length (sleeps (events L)) <= length (answers (events L)))%nat /\
  (forall x, result L = inr x ->
             length (sleeps (events L)) = length (queries (events L))).
Proof.
  unfold scan. destruct (negb _); [apply loop_sleeps |].
  cbn. split; [reflexivity |]. split; [lia | reflexivity].
Qed.

End ScanRuns.

(** ** Cache file names *)

Lemma list_ascii_append s t :
  list_ascii_of_string (s +:+ t) = list_ascii_of_string s ++ list_ascii_of_string t.
Proof.
  induction s as [| a s IH]; [reflexivity |].
  rewrite append_String. cbn [list_ascii_of_string]. rewrite IH. reflexivity.
Qed.

Lemma append_inv_tail s1 s2 u : s1 +:+ u = s2 +:+ u -> s1 = s2.
Proof.
  intros H. apply (f_equal list_ascii_of_string) in H.
  rewrite !list_ascii_append in H. apply app_inv_tail in H.
  apply (f_equal string_of_list_ascii) in H.
  rewrite !string_of_list_ascii_of_string in H. exact H.
Qed.

Lemma append_inv_head t x y : t +:+ x = t +:+ y -> x = y.
Proof.
  induction t as [| a t IH]; [auto |]. intros H.
  rewrite !append_String in H. injection H as H. apply IH, H.
Qed.

Lemma append_assoc s t u : (s +:+ t) +:+ u = s +:+ (t +:+ u).
Proof.
  induction s as [| a s IH]; [reflexivity |].
  rewrite !append_String, IH. reflexivity.
Qed.

(** X1: for one database different terms have different cache files, and
    for one term different databases have; but the name does not tell where
    the term ends: a term with an underscore shares its file with a shorter
    term and a longer database name. *)
Theorem cache_file_name_identity (term term' db db' u : string) :
  (cache_file_name term db = cache_file_name term' db -> term = term') /\
  (cache_file_name term db = cache_file_name term db' -> db = db') /\
  cache_file_name (term +:+ "_" +:+ u) db = cache_file_name term (u +:+ "_" +:+ db).
Proof.
  unfold cache_file_name. split; [| split].
  - apply append_inv_tail.
  - intros H. apply append_inv_head in H. apply append_inv_head in H.
    eapply append_inv_tail, H.
  - rewrite !append_assoc. reflexivity.
Qed.

Lemma cache_file_name_term_inj term term' db :
  term <> term' -> cache_file_name term db <> cache_file_name term' db.
Proof. intros Hne H. apply Hne. unfold cache_file_name in H. eapply append_inv_tail, H. Qed.

Section Calls.
Context {world delay : Type}.
Variable svc : world -> string -> option response * world.
Variables term db : string.
Variable sleep : delay.

(** A helper: no call touches a file other than its cache file. *)
Lemma get_df_files_other ps ow (s : state world) g :
  g <> cache_file_name term db ->
  files (final (get_df svc term db ps ow sleep s)) !! g = files s !! g.
Proof.
  intros Hg. rewrite get_df_run.
  destruct (result (scan _ _ _ _ _ _ _)) as [e | [d search]]; cbn [final files].
  - rewrite scan_files. apply start_state_other, Hg.
  - rewrite lookup_insert_ne by congruence.
    rewrite scan_files. apply start_state_other, Hg.
Qed.

End Calls.

(** X2: whatever its outcome, a call leaves every file other than its own
    cache file as it was; in particular the cache of another term for the
    same database. *)
Theorem get_df_touches_own_cache_only {world delay : Type}
    (svc : world -> string -> option response * world)
    (term db : string) (ps : list period) (ow : bool) (sleep : delay)
    (s : state world) :
  let R := get_df svc term db ps ow sleep s in
  (forall g, g <> cache_file_name term db ->
             files (final R) !! g = files s !! g) /\
  (forall term', term' <> term ->
     files (final R) !! cache_file_name term' db
       = files s !! cache_file_name term' db).
Proof.
  intros R. subst R. split.
  - intros g Hg. apply get_df_files_other, Hg.
  - intros term' Hne. apply get_df_files_other, cache_file_name_term_inj, Hne.
Qed.

(** X3: whatever its outcome, a call leaves a cache file, and that file has
    as many rows as the cache had when it was loaded: the number of periods
    for a cache created by this call, the stored number otherwise. *)
Theorem get_df_cache_row_count {world delay : Type}
    (svc : world -> string -> option response * world)
    (term db : string) (ps : list period) (ow : bool) (sleep : delay)
    (s : state world) :
  let f := cache_file_name term db in
  let R := get_df svc term db ps ow sleep s in
  exists rows,
    files (final R) !! f = Some rows /\
    length rows = length (loaded_csv s term db (length ps) ow) /\
    (files s !! f = None \/ ow = true -> length rows = length ps) /\
    (forall c, files s !! f = Some c -> ow = false -> length rows = length c).
Proof.
  intros f R. subst R f.
  assert (Hlen : forall rows : csv,
            length rows = length (loaded_csv s term db (length ps) ow) ->
            (files s !! cache_file_name term db = None \/ ow = true ->
             length rows = length ps) /\
            (forall c, files s !! cache_file_name term db = Some c -> ow = false ->
                       length rows = length c)).
  { intros rows Hr. split.
    - intros Hfresh. rewrite Hr, (loaded_fresh _ _ _ _ _ Hfresh).
      apply length_replicate.
    - intros c Hc ->. rewrite Hr, (loaded_hit _ _ _ _ _ Hc). reflexivity. }
  rewrite get_df_run.
  destruct (result (scan _ _ _ _ _ _ _)) as [e | [d search]] eqn:Hscan;
    cbn [final files].
  - exists (loaded_csv s term db (length ps) ow).
    rewrite scan_files. split; [apply start_state_loaded |].
    split; [reflexivity | apply Hlen; reflexivity].
  - exists (csv_of d). split; [apply lookup_insert_eq |].
    assert (Hr : length (csv_of d) = length (loaded_csv s term db (length ps) ow)).
    { destruct (scan_ok_lengths _ _ _ _ _ _ _ _ _ Hscan) as [H1 H2].
      unfold csv_of. rewrite length_zip_with, length_fmap. lia. }
    split; [exact Hr | apply Hlen, Hr].
Qed.

(** ** What a call sends and how long it waits *)

Lemma length_pending_le cs : forall ps, (length (pending cs ps) <= length ps)%nat.
Proof.
  induction cs as [| c cs IH]; intros [| p ps]; cbn [pending length]; try lia.
  specialize (IH ps). destruct (resolved c); cbn [length]; lia.
Qed.

Section Pieces.
Context {delay : Type}.

Lemma sleeps_quiet (evs : list (event delay)) : Forall quiet evs -> sleeps evs = [].
Proof.
  induction 1 as [| e evs [_ Hs] _ IH]; [reflexivity |].
  destruct e; try discriminate; exact IH.
Qed.

Lemma queries_app (a b : list (event delay)) : queries (a ++ b) = queries a ++ queries b.
Proof. apply omap_app. Qed.

Lemma answers_app (a b : list (event delay)) : answers (a ++ b) = answers a ++ answers b.
Proof. apply omap_app. Qed.

Lemma sleeps_app (a b : list (event delay)) : sleeps (a ++ b) = sleeps a ++ sleeps b.
Proof. apply omap_app. Qed.

Lemma prints_app (a b : list (event delay)) : prints (a ++ b) = prints a ++ prints b.
Proof. apply omap_app. Qed.

End Pieces.

Section Observed.
Context {world delay : Type}.
Variable svc : world -> string -> option response * world.
Variables term db : string.
Variable sleep : delay.

(** The queries, answers and sleeps of a call are those of its scan. *)
Lemma get_df_observed ps ow (s : state world) :
  let L := scan svc term db sleep ps (loaded_csv s term db (length ps) ow)
                (start_state s term db (length ps) ow) in
  let R := get_df svc term db ps ow sleep s in
  queries (events R) = queries (events L) /\
  answers (events R) = answers (events L) /\
  sleeps (events R) = sleeps (events L).
Proof.
  intros L R. subst R L. rewrite get_df_run.
  pose proof (start_events_quiet (delay:=delay) term db s (length ps) ow) as Hs.
  destruct (result (scan _ _ _ _ _ _ _)) as [e | [d search]]; cbn [events].
  - rewrite queries_app, answers_app, sleeps_app.
    rewrite (queries_quiet _ Hs), (answers_quiet _ Hs), (sleeps_quiet _ Hs). auto.
  - pose proof (tail_quiet (delay:=delay) search (cache_file_name term db) (csv_of d))
      as Ht.
    rewrite (queries_app (start_events _ _ _ _ _)), (queries_app (events _)).
    rewrite (answers_app (start_events _ _ _ _ _)), (answers_app (events _)).
    rewrite (sleeps_app (start_events _ _ _ _ _)), (sleeps_app (events _)).
    rewrite (queries_quiet _ Hs), (answers_quiet _ Hs), (sleeps_quiet _ Hs).
    rewrite (queries_quiet _ Ht), (answers_quiet _ Ht), (sleeps_quiet _ Ht).
    rewrite !app_nil_r. auto.
Qed.

End Observed.

(** X4: whatever the service does and however the call ends, the queries
    a call sends are the first ones, in order, of the periods whose loaded
    record is pending: a resolved record is never asked for again, and a
    call never sends more queries than there are periods. *)
Theorem get_df_never_requeries {world delay : Type}
    (svc : world -> string -> option response * world)
    (term db : string) (ps : list period) (ow : bool) (sleep : delay)
    (s : state world) :
  let R := get_df svc term db ps ow sleep s in
  let c := loaded_csv s term db (length ps) ow in
  queries (events R) `prefix_of` query_of term db <$> pending (c.*2) ps /\
  (length (queries (events R)) <= length ps)%nat.
Proof.
  intros R c. subst R c.
  destruct (get_df_observed svc term db sleep ps ow s) as (Hq & _ & _).
  rewrite Hq.
  pose proof (scan_queries_prefix svc term db sleep ps
                (loaded_csv s term db (length ps) ow)
                (start_state s term db (length ps) ow)) as Hp.
  split; [exact Hp |].
  apply prefix_length in Hp. rewrite length_fmap in Hp.
  pose proof (length_pending_le ((loaded_csv s term db (length ps) ow).*2) ps). lia.
Qed.

(** X5: every sleep of a call has the requested length and follows an
    answered query; a call that returns a table slept once per query, the
    last query included. *)
Theorem get_df_sleeps {world delay : Type}
    (svc : world -> string -> option response * world)
    (term db : string) (ps : list period) (ow : bool) (sleep : delay)
    (s : state world) :
  let R := get_df svc term db ps ow sleep s in
  sleeps (events R) = replicate (length (sleeps (events R))) sleep /\
  (length (sleeps (events R)) <= length (answers (events R)))%nat /\
  (forall tbl, result R = inr tbl ->
               length (sleeps (events R)) = length (queries (events R))).
Proof.
  intros R. subst R.
  destruct (get_df_observed svc term db sleep ps ow s) as (Hq & Ha & Hs).
  rewrite Hq, Ha, Hs.
  destruct (scan_sleeps svc term db sleep ps
              (loaded_csv s term db (length ps) ow)
              (start_state s term db (length ps) ow)) as (H1 & H2 & H3).
  split; [exact H1 |]. split; [exact H2 |].
  intros tbl Ht. rewrite get_df_run in Ht.
  destruct (result (scan _ _ _ _ _ _ _)) as [e | x] eqn:Hscan.
  - discriminate.
  - eapply H3. reflexivity.
Qed.

(** ** Tables, errors and edge cases *)

Lemma mapM_CStr_str_cell l :
  Forall cell_ok l ->
  mapM (to_datetime1 ∘ CStr) (str_cell <$> l) = mapM to_datetime1 l.
Proof.
  induction 1 as [| c l Hc _ IH]; [reflexivity |].
  cbn [fmap list_fmap mapM]. rewrite IH.
  change ((to_datetime1 ∘ CStr) (str_cell c)) with (to_datetime1 (CStr (str_cell c))).
  rewrite (to_datetime1_str_cell c Hc). reflexivity.
Qed.

(** X6: a call that returns a table has left every record of the period
    list resolved, and the table is the cache file it wrote: the same
    counts row by row, and the dates of the file converted. *)
Theorem get_df_table_is_cache {world delay : Type}
    (svc : world -> string -> option response * world)
    (term db : string) (ps : list period) (ow : bool) (sleep : delay)
    (s : state world) (tbl : table) :
  let R := get_df svc term db ps ow sleep s in
  result R = inr tbl ->
  (forall j x, (j < length ps)%nat -> t_count tbl !! j = Some x -> 0 <= x) /\
  length (t_date tbl) = length (t_count tbl) /\
  exists rows,
    files (final R) !! cache_file_name term db = Some rows /\
    rows.*2 = t_count tbl /\
    mapM (to_datetime1 ∘ CStr) (rows.*1) = Some (t_date tbl).
Proof.
  intros R. subst R. rewrite get_df_run.
  destruct (result (scan _ _ _ _ _ _ _)) as [e | [d search]] eqn:Hscan;
    cbn [result final files]; [discriminate |].
  destruct (mapM to_datetime1 (col_date d)) as [ds |] eqn:Hds; [| discriminate].
  intros H. injection H as <-. cbn [t_date t_count].
  pose proof (scan_wf _ _ _ _ _ _ _ _ _ Hscan) as Hwf.
  split; [eapply scan_ok_resolved, Hscan |]. split.
  - apply length_mapM in Hds. rewrite <- Hds. apply Hwf.
  - exists (csv_of d). split; [apply lookup_insert_eq |].
    split; [apply csv_of_snd, Hwf |].
    rewrite csv_of_fst by exact Hwf. rewrite mapM_CStr_str_cell by apply Hwf.
    exact Hds.
Qed.

(** X7: a call without overwrite never alters a resolved record of the
    stored cache, whatever the service does and however the call ends: the
    row is in the cache file afterwards, date text and count unchanged. *)
Theorem get_df_keeps_resolved {world delay : Type}
    (svc : world -> string -> option response * world)
    (term db : string) (ps : list period) (sleep : delay)
    (s : state world) (c : csv) (i : nat) (dt : string) (cnt : Z) :
  files s !! cache_file_name term db = Some c ->
  c !! i = Some (dt, cnt) -> 0 <= cnt ->
  let R := get_df svc term db ps false sleep s in
  exists rows,
    files (final R) !! cache_file_name term db = Some rows /\
    rows !! i = Some (dt, cnt).
Proof.
  intros Hf Hi Hcnt R. subst R. rewrite get_df_run.
  rewrite (loaded_hit _ _ _ _ _ Hf), (start_state_hit _ _ _ _ _ Hf).
  destruct (result (scan _ _ _ _ _ _ _)) as [e | [d search]] eqn:Hscan;
    cbn [final files].
  - exists c. rewrite scan_files. auto.
  - exists (csv_of d). split; [apply lookup_insert_eq |].
    destruct (scan_ok_kept _ _ _ _ _ _ _ _ _ _ _ _ Hscan Hi Hcnt) as [H1 H2].
    unfold csv_of. apply lookup_zip_with_Some. exists dt, cnt.
    split; [reflexivity |]. split; [| exact H1].
    rewrite list_lookup_fmap, H2. reflexivity.
Qed.

(** X8: a KeyError can only come from a stored cache that is shorter than
    the period list; it names the first missing position, and the files
    are left as they were.  A cache created by the call never causes one. *)
Theorem get_df_key_error {world delay : Type}
    (svc : world -> string -> option response * world)
    (term db : string) (ps : list period) (ow : bool) (sleep : delay)
    (s : state world) (k : nat) :
  let R := get_df svc term db ps ow sleep s in
  result R = inl (KeyError k) ->
  ow = false /\
  (exists c, files s !! cache_file_name term db = Some c /\
             k = length c /\ (length c < length ps)%nat) /\
  files (final R) = files s.
Proof.
  intros R. subst R. rewrite get_df_run.
  destruct (result (scan _ _ _ _ _ _ _)) as [e | [d search]] eqn:Hscan;
    cbn [result final].
  2:{ destruct (mapM _ _); discriminate. }
  intros H. injection H as ->. apply scan_key_error in Hscan as [Hk Hlt].
  destruct (files s !! cache_file_name term db) as [c |] eqn:Hf.
  - destruct ow.
    + rewrite (loaded_fresh _ _ _ _ _ (or_intror eq_refl)) in Hk.
      unfold fresh_csv in Hk. rewrite length_replicate in Hk. lia.
    + rewrite (loaded_hit _ _ _ _ _ Hf) in Hk.
      split; [reflexivity |]. split; [exists c; split; [reflexivity | lia] |].
      rewrite scan_files, (start_state_hit _ _ _ _ _ Hf). reflexivity.
  - rewrite (loaded_fresh _ _ _ _ _ (or_introl Hf)) in Hk.
    unfold fresh_csv in Hk. rewrite length_replicate in Hk. lia.
Qed.

(** X9: a ValueError comes after an answered query: the period of the last
    query is one the calendar rejects, its answer is lost with the
    exception, and the cache file holds the rows it held when the loop
    started. *)
Theorem get_df_value_error {world delay : Type}
    (svc : world -> string -> option response * world)
    (term db : string) (ps : list period) (ow : bool) (sleep : delay)
    (s : state world) :
  let R := get_df svc term db ps ow sleep s in
  result R = inl ValueError ->
  (exists p r,
      p ∈ ps /\ period_valid p = false /\
      last (events R) = Some (Ev_query (query_of term db p) (Some r))) /\
  files (final R) !! cache_file_name term db
    = Some (loaded_csv s term db (length ps) ow).
Proof.
  intros R. subst R. rewrite get_df_run.
  destruct (result (scan _ _ _ _ _ _ _)) as [e | [d search]] eqn:Hscan;
    cbn [result final events].
  2:{ destruct (mapM _ _); discriminate. }
  intros H. injection H as ->.
  destruct (scan_value_error _ _ _ _ _ _ _ Hscan) as (p & r & Hin & Hp & Hl).
  split.
  - exists p, r. split; [exact Hin |]. split; [exact Hp |].
    rewrite last_app, Hl. reflexivity.
  - rewrite scan_files. apply start_state_loaded.
Qed.

(** X10: the budget line.  A call whose loop completes prints at most one
    line: none when it sent no query, else the remaining budget of the last
    answer.  A call ended by an exception inside the loop prints nothing. *)
Theorem get_df_budget_line {world delay : Type}
    (svc : world -> string -> option response * world)
    (term db : string) (ps : list period) (ow : bool) (sleep : delay)
    (s : state world) :
  let R := get_df svc term db ps ow sleep s in
  ((exists tbl, result R = inr tbl) \/ result R = inl DatetimeError ->
   prints (events R)
     = match last (answers (events R)) with
       | Some r => [remaining r +:+ " queries remaining"]
       | None => []
       end) /\
  (forall e, result R = inl e -> e <> DatetimeError -> prints (events R) = []).
Proof.
  intros R. subst R.
  destruct (get_df_observed svc term db sleep ps ow s) as (_ & Ha & _).
  rewrite Ha. clear Ha. rewrite get_df_run.
  assert (Hstart : prints (start_events (delay:=delay) s term db (length ps) ow) = []).
  { unfold start_events. destruct (stale _ _ _ _); reflexivity. }
  destruct (result (scan _ _ _ _ _ _ _)) as [e | [d search]] eqn:Hscan;
    cbn [result events].
  - split.
    + intros [[tbl Ht] | He]; [discriminate |]. injection He as ->.
      apply scan_exn in Hscan. destruct Hscan as [[j ?] | [? | ?]]; discriminate.
    + intros e' _ _. rewrite prints_app, Hstart, scan_no_print. reflexivity.
  - split.
    + intros _. rewrite !prints_app, Hstart, scan_no_print.
      rewrite <- (scan_ok_search _ _ _ _ _ _ _ _ _ Hscan).
      destruct search; reflexivity.
    + intros e He Hne. destruct (mapM _ _); [discriminate |].
      injection He as <-. congruence.
Qed.

(** X11: an empty period list.  The call sends no query; it only creates the
    cache when there is none, and writes the loaded rows back. *)
Theorem get_df_no_periods {world delay : Type}
    (svc : world -> string -> option response * world)
    (term db : string) (ow : bool) (sleep : delay) (s : state world) :
  let f := cache_file_name term db in
  let R := get_df svc term db [] ow sleep s in
  let c := loaded_csv s term db 0 ow in
  events R = start_events s term db 0 ow ++ [Ev_to_csv f c] /\
  files (final R) !! f = Some c /\
  ads (final R) = ads s /\
  (files s !! f = None \/ ow = true -> result R = inr (Table [] [])).
Proof.
  intros f R c. subst R f c. rewrite get_df_run. cbn [length].
  assert (Hscan : scan svc term db sleep [] (loaded_csv s term db 0 ow)
                       (start_state s term db 0 ow)
                  = Run (inr (frame_of (loaded_csv s term db 0 ow), None))
                        (start_state s term db 0 ow) []).
  { unfold scan. destruct (negb _); reflexivity. }
  rewrite Hscan. cbn [result final events files ads print_events app].
  rewrite csv_of_frame_of. split; [reflexivity |].
  split; [apply lookup_insert_eq |]. split.
  - unfold start_state. destruct (stale _ _ _ _); reflexivity.
  - intros Hfresh. rewrite (loaded_fresh _ _ _ _ _ Hfresh). reflexivity.
Qed.

(** ** Calling again *)

Section Replay.
Context {world delay : Type}.
Variable svc : world -> string -> option response * world.
Variables term db : string.
Variable sleep : delay.

Lemma scan_settled ps c s :
  settled (c.*2) ps ->
  scan svc term db sleep ps c s = Run (inr (frame_of c, None)) s [].
Proof.
  intros [Hall | Hps]; [apply scan_hit, Hall |].
  unfold scan. destruct (negb _); [| reflexivity].
  apply loop_all_skip. intros j Hj. apply Hps. lia.
Qed.

(** What a call that returned a table has left in its cache file. *)
Lemma get_df_completed ps ow (s : state world) tbl :
  result (get_df svc term db ps ow sleep s) = inr tbl ->
  exists rows,
    files (final (get_df svc term db ps ow sleep s)) !! cache_file_name term db
      = Some rows /\
    rows.*2 = t_count tbl /\
    mapM (to_datetime1 ∘ CStr) (rows.*1) = Some (t_date tbl) /\
    settled (rows.*2) ps.
Proof.
  rewrite get_df_run.
  destruct (result (scan _ _ _ _ _ _ _)) as [e | [d search]] eqn:Hscan;
    cbn [result final files]; [discriminate |].
  destruct (mapM to_datetime1 (col_date d)) as [ds |] eqn:Hds; [| discriminate].
  intros H. injection H as <-. cbn [t_date t_count].
  pose proof (scan_wf _ _ _ _ _ _ _ _ _ Hscan) as Hwf.
  exists (csv_of d). split; [apply lookup_insert_eq |].
  rewrite csv_of_snd, csv_of_fst by exact Hwf.
  split; [reflexivity |]. split.
  - rewrite mapM_CStr_str_cell by apply Hwf. exact Hds.
  - eapply scan_ok_skippable, Hscan.
Qed.

(** A call on a cache that is settled and whose dates convert: the only
    event is the write of the rows read, and the state stays as it is. *)
Lemma get_df_replay ps (s : state world) rows tbl :
  files s !! cache_file_name term db = Some rows ->
  settled (rows.*2) ps ->
  mapM (to_datetime1 ∘ CStr) (rows.*1) = Some (t_date tbl) ->
  rows.*2 = t_count tbl ->
  get_df svc term db ps false sleep s
    = Run (inr tbl) s [Ev_to_csv (cache_file_name term db) rows].
Proof.
  intros Hf Hset Hds Hcnt. rewrite get_df_run.
  unfold start_events. rewrite (stale_hit _ _ _ _ Hf).
  rewrite (loaded_hit _ _ _ _ _ Hf), (start_state_hit _ _ _ _ _ Hf).
  rewrite scan_settled by exact Hset.
  cbn [result final events print_events app]. rewrite csv_of_frame_of.
  rewrite insert_id by exact Hf.
  assert (Hm : mapM to_datetime1 (col_date (frame_of rows)) = Some (t_date tbl)).
  { cbn [col_date frame_of]. rewrite <- Hds. clear.
    induction (rows.*1) as [| x l IH]; [reflexivity |].
    cbn [fmap list_fmap mapM]. rewrite IH. reflexivity. }
  rewrite Hm. cbn [col_count frame_of]. rewrite Hcnt.
  destruct s, tbl; reflexivity.
Qed.

End Replay.

(** X12: after a call that returned a table, with or without overwrite, the
    same call without overwrite returns the same table; its only event is
    the write of the unchanged cache rows, so it sends no query, and it
    leaves files and service as they were.  This holds also when records
    beyond the period list are still pending. *)
Theorem get_df_second_call {world delay : Type}
    (svc : world -> string -> option response * world)
    (term db : string) (ps : list period) (ow : bool) (sleep : delay)
    (s : state world) (tbl : table) :
  let R1 := get_df svc term db ps ow sleep s in
  result R1 = inr tbl ->
  exists rows,
    files (final R1) !! cache_file_name term db = Some rows /\
    get_df svc term db ps false sleep (final R1)
      = Run (inr tbl) (final R1) [Ev_to_csv (cache_file_name term db) rows].
Proof.
  intros R1 H. subst R1.
  destruct (get_df_completed svc term db sleep ps ow s tbl H)
    as (rows & Hf & Hcnt & Hds & Hset).
  exists rows. split; [exact Hf |].
  apply get_df_replay; assumption.
Qed.

(** ** The fetching cells *)


Section Sequence.
Context {world delay : Type}.

Lemma mbind_run {A B} (m : M world delay A) (k : A -> M world delay B) s :
  (m ≫= k) s =
    match result (m s) with
    | inl e => Run (inl e) (final (m s)) (events (m s))
    | inr a => Run (result (k a (final (m s)))) (final (k a (final (m s))))
                   (events (m s) ++ events (k a (final (m s))))
    end.
Proof. reflexivity. Qed.

(** Four computations in a row, each returning. *)
Lemma seq4_run {A} (m1 m2 m3 m4 : M world delay A) s a1 a2 a3 a4 :
  result (m1 s) = inr a1 ->
  result (m2 (final (m1 s))) = inr a2 ->
  result (m3 (final (m2 (final (m1 s))))) = inr a3 ->
  result (m4 (final (m3 (final (m2 (final (m1 s))))))) = inr a4 ->
  (x1 ← m1; x2 ← m2; x3 ← m3; x4 ← m4; mret (x1, x2, x3, x4)) s =
    Run (inr (a1, a2, a3, a4))
        (final (m4 (final (m3 (final (m2 (final (m1 s))))))))
        (events (m1 s) ++ events (m2 (final (m1 s))) ++
         events (m3 (final (m2 (final (m1 s))))) ++
         events (m4 (final (m3 (final (m2 (final (m1 s))))))) ++ []).
Proof.
  intros H1 H2 H3 H4.
  rewrite mbind_run, H1, mbind_run, H2, mbind_run, H3, mbind_run, H4.
  reflexivity.
Qed.

Lemma seq4_final {A} (m1 m2 m3 m4 : M world delay A) s a1 a2 a3 a4 :
  result (m1 s) = inr a1 ->
  result (m2 (final (m1 s))) = inr a2 ->
  result (m3 (final (m2 (final (m1 s))))) = inr a3 ->
  result (m4 (final (m3 (final (m2 (final (m1 s))))))) = inr a4 ->
  final ((x1 ← m1; x2 ← m2; x3 ← m3; x4 ← m4; mret (x1, x2, x3, x4)) s) =
    final (m4 (final (m3 (final (m2 (final (m1 s))))))).
Proof.
  intros H1 H2 H3 H4. rewrite (seq4_run _ _ _ _ _ _ _ _ _ H1 H2 H3 H4).
  reflexivity.
Qed.

Lemma seq4_inv {A} (m1 m2 m3 m4 : M world delay A) s x :
  result ((x1 ← m1; x2 ← m2; x3 ← m3; x4 ← m4; mret (x1, x2, x3, x4)) s) = inr x ->
  exists a1 a2 a3 a4,
    x = (a1, a2, a3, a4) /\
    result (m1 s) = inr a1 /\
    result (m2 (final (m1 s))) = inr a2 /\
    result (m3 (final (m2 (final (m1 s))))) = inr a3 /\
    result (m4 (final (m3 (final (m2 (final (m1 s))))))) = inr a4.
Proof.
  rewrite mbind_run. destruct (result (m1 s)) as [e | a1]; [discriminate |].
  cbn [result]. rewrite mbind_run.
  destruct (result (m2 _)) as [e | a2]; [discriminate |].
  cbn [result]. rewrite mbind_run.
  destruct (result (m3 _)) as [e | a3]; [discriminate |].
  cbn [result]. rewrite mbind_run.
  destruct (result (m4 _)) as [e | a4]; [discriminate |].
  cbn [result]. intros H. injection H as <-.
  exists a1, a2, a3, a4. auto 10.
Qed.

(** Four computations in a row, none of which changes the state. *)
Lemma seq4_still {A} (m1 m2 m3 m4 : M world delay A) s a1 a2 a3 a4 e1 e2 e3 e4 :
  m1 s = Run (inr a1) s e1 -> m2 s = Run (inr a2) s e2 ->
  m3 s = Run (inr a3) s e3 -> m4 s = Run (inr a4) s e4 ->
  (x1 ← m1; x2 ← m2; x3 ← m3; x4 ← m4; mret (x1, x2, x3, x4)) s =
    Run (inr (a1, a2, a3, a4)) s (e1 ++ e2 ++ e3 ++ e4 ++ []).
Proof.
  intros H1 H2 H3 H4.
  rewrite mbind_run, H1. cbn [result final events].
  rewrite mbind_run, H2. cbn [result final events].
  rewrite mbind_run, H3. cbn [result final events].
  rewrite mbind_run, H4. reflexivity.
Qed.

Variable svc : world -> string -> option response * world.
Variable sleep : delay.


End Sequence.


Lemma notebook_fetch_eq {world delay : Type}
    (svc : world -> string -> option response * world) (sleep : delay) :
  notebook_fetch svc sleep =
    (x1 ← get_df svc "python" "astronomy" dates false sleep;
     x2 ← get_df svc "astropy" "astronomy" dates false sleep;
     x3 ← get_df svc "idl" "astronomy" dates false sleep;
     x4 ← get_df svc "matlab" "astronomy" dates false sleep;
     mret (x1, x2, x3, x4)).
Proof. reflexivity. Qed.

(** What a run of the fetching cells that returned has left on disk: for
    each term a cache the next call passes over. *)
Lemma notebook_fetch_left {world delay : Type}
    (svc : world -> string -> option response * world) (sleep : delay)
    (s : state world) (x : table * table * table * table) :
  result (notebook_fetch svc sleep s) = inr x ->
  exists t1 t2 t3 t4,
    x = (t1, t2, t3, t4) /\
    Forall2 (fun term t =>
               exists rows,
                 files (final (notebook_fetch svc sleep s))
                   !! cache_file_name term "astronomy" = Some rows /\
                 rows.*2 = t_count t /\
                 mapM (to_datetime1 ∘ CStr) (rows.*1) = Some (t_date t) /\
                 settled (rows.*2) dates)
            notebook_terms [t1; t2; t3; t4].
Proof.
  rewrite notebook_fetch_eq. intros H.
  destruct (seq4_inv _ _ _ _ _ _ H) as (t1 & t2 & t3 & t4 & -> & Hr1 & Hr2 & Hr3 & Hr4).
  rewrite (seq4_final _ _ _ _ s t1 t2 t3 t4 Hr1 Hr2 Hr3 Hr4). clear H.
  destruct (get_df_completed _ _ _ _ _ _ _ _ Hr1) as (c1 & Hf1 & Hc1 & Hm1 & Hs1).
  destruct (get_df_completed _ _ _ _ _ _ _ _ Hr2) as (c2 & Hf2 & Hc2 & Hm2 & Hs2).
  destruct (get_df_completed _ _ _ _ _ _ _ _ Hr3) as (c3 & Hf3 & Hc3 & Hm3 & Hs3).
  destruct (get_df_completed _ _ _ _ _ _ _ _ Hr4) as (c4 & Hf4 & Hc4 & Hm4 & Hs4).
  exists t1, t2, t3, t4. split; [reflexivity |].
  constructor; [| constructor; [| constructor; [| constructor; [| constructor]]]].
  - exists c1. split; [| auto].
    rewrite !get_df_files_other by (apply cache_file_name_term_inj; discriminate).
    exact Hf1.
  - exists c2. split; [| auto].
    rewrite !get_df_files_other by (apply cache_file_name_term_inj; discriminate).
    exact Hf2.
  - exists c3. split; [| auto].
    rewrite !get_df_files_other by (apply cache_file_name_term_inj; discriminate).
    exact Hf3.
  - exists c4. auto.
Qed.

(** X14: running the four fetching cells again.  When a first run returned
    its four tables, a second run on the disk it left returns the same
    tables; its only events are the four writes of the unchanged cache
    files, so it sends no query, and it leaves files and service as they
    were, whatever the service would answer. *)
Theorem notebook_rerun {world delay : Type}
    (svc : world -> string -> option response * world) (sleep : delay)
    (s : state world) (x : table * table * table * table) :
  let R1 := notebook_fetch svc sleep s in
  result R1 = inr x ->
  notebook_fetch svc sleep (final R1) =
    Run (inr x) (final R1)
        (map (fun term =>
                Ev_to_csv (cache_file_name term "astronomy")
                  (default [] (files (final R1) !! cache_file_name term "astronomy")))
             notebook_terms).
Proof.
  intros R1 H.
  destruct (notebook_fetch_left svc sleep s x H) as (t1 & t2 & t3 & t4 & -> & HF).
  fold R1 in HF. clearbody R1. clear H.
  apply Forall2_cons in HF as [(c1 & G1 & Hc1 & Hm1 & Hs1) HF].
  apply Forall2_cons in HF as [(c2 & G2 & Hc2 & Hm2 & Hs2) HF].
  apply Forall2_cons in HF as [(c3 & G3 & Hc3 & Hm3 & Hs3) HF].
  apply Forall2_cons in HF as [(c4 & G4 & Hc4 & Hm4 & Hs4) _].
  rewrite notebook_fetch_eq.
  rewrite (seq4_still _ _ _ _ (final R1) t1 t2 t3 t4 _ _ _ _
             (get_df_replay svc "python" "astronomy" sleep dates _ c1 t1 G1 Hs1 Hm1 Hc1)
             (get_df_replay svc "astropy" "astronomy" sleep dates _ c2 t2 G2 Hs2 Hm2 Hc2)
             (get_df_replay svc "idl" "astronomy" sleep dates _ c3 t3 G3 Hs3 Hm3 Hc3)
             (get_df_replay svc "matlab" "astronomy" sleep dates _ c4 t4 G4 Hs4 Hm4 Hc4)).
  cbn [notebook_terms map app]. rewrite G1, G2, G3, G4. reflexivity.
Qed.

(** ** The further properties at work on sample runs *)

Lemma cache_file_name_identity_witness :
  "idl"%string = "idl"%string /\ "astronomy"%string = "astronomy"%string /\
  cache_file_name ("a" +:+ "_" +:+ "b") "c" = cache_file_name "a" ("b" +:+ "_" +:+ "c").
Proof.
  pose proof (cache_file_name_identity "idl" "idl" "astronomy" "astronomy" "x")
    as (H1 & H2 & _).
  split; [apply H1; reflexivity |]. split; [apply H2; reflexivity |].
  apply (cache_file_name_identity "a" "a" "c" "c" "b").
Defined.

Lemma get_df_touches_own_cache_only_witness :
  let R := get_df Demo.svc_ok "idl" "astronomy" Demo.two false 100
                  Demo.three_resolved in
  files (final R) !! cache_file_name "python" "astronomy" = Some Demo.rows_resolved.
Proof.
  cbv zeta.
  rewrite (proj2 (get_df_touches_own_cache_only Demo.svc_ok "idl" "astronomy"
                    Demo.two false 100 Demo.three_resolved) "python").
  - vm_compute. reflexivity.
  - discriminate.
Defined.

Lemma get_df_cache_row_count_witness :
  let R := get_df Demo.svc_flaky "python" "astronomy" Demo.two false 100
                  Demo.empty_disk in
  exists rows,
    files (final R) !! cache_file_name "python" "astronomy" = Some rows /\
    length rows = length Demo.two.
Proof.
  destruct (get_df_cache_row_count Demo.svc_flaky "python" "astronomy" Demo.two
              false 100 Demo.empty_disk) as (rows & Hf & _ & Hfresh & _).
  exists rows. split; [exact Hf |]. apply Hfresh. left. vm_compute. reflexivity.
Defined.

Lemma get_df_sleeps_witness :
  let R := get_df Demo.svc_ok "python" "astronomy" Demo.two false 100
                  Demo.empty_disk in
  length (sleeps (events R)) = length (queries (events R)).
Proof.
  eapply (proj2 (proj2 (get_df_sleeps Demo.svc_ok "python" "astronomy" Demo.two
                          false 100 Demo.empty_disk))).
  vm_compute. reflexivity.
Defined.

Lemma get_df_table_is_cache_witness :
  let R := get_df Demo.svc_ok "python" "astronomy" Demo.three false 100
                  Demo.one_pending in
  let tbl := Table [Date 1991 2 1; Date 1991 3 1; Date 1991 4 1] [5; 10; 3] in
  (forall j x, (j < length Demo.three)%nat -> t_count tbl !! j = Some x -> 0 <= x) /\
  length (t_date tbl) = length (t_count tbl) /\
  exists rows,
    files (final R) !! cache_file_name "python" "astronomy" = Some rows /\
    rows.*2 = t_count tbl /\
    mapM (to_datetime1 ∘ CStr) (rows.*1) = Some (t_date tbl).
Proof.
  apply (get_df_table_is_cache Demo.svc_ok "python" "astronomy" Demo.three false
           100 Demo.one_pending).
  vm_compute. reflexivity.
Defined.

Lemma get_df_keeps_resolved_witness :
  let R := get_df Demo.svc_flaky "python" "astronomy" Demo.three false 100
                  Demo.one_pending in
  exists rows,
    files (final R) !! cache_file_name "python" "astronomy" = Some rows /\
    rows !! 2%nat = Some ("1991-04-01"%string, 3).
Proof.
  apply (get_df_keeps_resolved Demo.svc_flaky "python" "astronomy" Demo.three 100
           Demo.one_pending Demo.rows_one_pending).
  - vm_compute. reflexivity.
  - reflexivity.
  - lia.
Defined.

Lemma get_df_second_call_witness :
  let R1 := get_df Demo.svc_ok "python" "astronomy" Demo.two true 100
                   Demo.three_resolved in
  exists rows,
    files (final R1) !! cache_file_name "python" "astronomy" = Some rows /\
    get_df Demo.svc_ok "python" "astronomy" Demo.two false 100 (final R1)
      = Run (inr (Table [Date 1991 2 1; Date 1991 3 1] [10; 11])) (final R1)
            [Ev_to_csv (cache_file_name "python" "astronomy") rows].
Proof.
  apply (get_df_second_call Demo.svc_ok "python" "astronomy" Demo.two true 100
           Demo.three_resolved).
  vm_compute. reflexivity.
Defined.

Lemma get_df_key_error_witness :
  let R := get_df Demo.svc_ok "python" "astronomy" Demo.two false 100
                  Demo.short_pending in
  false = false /\
  (exists c, files Demo.short_pending !! cache_file_name "python" "astronomy" = Some c /\
             1%nat = length c /\ (length c < length Demo.two)%nat) /\
  files (final R) = files Demo.short_pending.
Proof.
  apply (get_df_key_error Demo.svc_ok "python" "astronomy" Demo.two false 100
           Demo.short_pending 1).
  vm_compute. reflexivity.
Defined.

Lemma get_df_value_error_witness :
  let R := get_df Demo.svc_ok "python" "astronomy" Demo.thirteenth false 100
                  Demo.empty_disk in
  (exists p r,
      p ∈ Demo.thirteenth /\ period_valid p = false /\
      last (events R) = Some (Ev_query (query_of "python" "astronomy" p) (Some r))) /\
  files (final R) !! cache_file_name "python" "astronomy"
    = Some (loaded_csv Demo.empty_disk "python" "astronomy" (length Demo.thirteenth) false).
Proof.
  apply (get_df_value_error Demo.svc_ok "python" "astronomy" Demo.thirteenth false
           100 Demo.empty_disk).
  vm_compute. reflexivity.
Defined.

Lemma get_df_budget_line_witness :
  prints (events (get_df Demo.svc_ok "python" "astronomy" Demo.two false 100
                         Demo.empty_disk)) = ["4999 queries remaining"%string] /\
  prints (events (get_df Demo.svc_flaky "python" "astronomy" Demo.two false 100
                         Demo.empty_disk)) = [].
Proof.
  split.
  - rewrite (proj1 (get_df_budget_line Demo.svc_ok "python" "astronomy" Demo.two
                      false 100 Demo.empty_disk)).
    + vm_compute. reflexivity.
    + left. eexists. vm_compute. reflexivity.
  - apply (proj2 (get_df_budget_line Demo.svc_flaky "python" "astronomy" Demo.two
                    false 100 Demo.empty_disk) ServiceError).
    + vm_compute. reflexivity.
    + discriminate.
Defined.

Lemma get_df_no_periods_witness :
  result (get_df Demo.svc_ok "python" "astronomy" [] false 100 Demo.empty_disk)
    = inr (Table [] []).
Proof.
  apply (get_df_no_periods Demo.svc_ok "python" "astronomy" false 100 Demo.empty_disk).
  left. vm_compute. reflexivity.
Defined.


Lemma notebook_rerun_witness :
  let R1 := notebook_fetch Demo.svc_ok 100 Demo.empty_disk in
  exists x,
    result R1 = inr x /\
    notebook_fetch Demo.svc_ok 100 (final R1)
      = Run (inr x) (final R1)
            (map (fun term =>
                    Ev_to_csv (cache_file_name term "astronomy")
                      (default [] (files (final R1)
                                     !! cache_file_name term "astronomy")))
                 notebook_terms).
Proof.
  cbv zeta.
  assert (H : exists x, result (notebook_fetch Demo.svc_ok 100 Demo.empty_disk) = inr x).
  { eexists. vm_compute. reflexivity. }
  destruct H as [x Hx]. exists x. split; [exact Hx |].
  apply (notebook_rerun Demo.svc_ok 100 Demo.empty_disk x). exact Hx.
Defined.
